(** * jsonld-cli: a shallow embedding of [bin/jsonld.js]

    The command line tool is a thin layer over two libraries ([jsonld] and
    [jsonld-request]) and over commander's option parser.  This file embeds
    the functions of [bin/jsonld.js] themselves: [boolify], [_output],
    [_error], [_jsonldRequest], [_isHTTP], [_jsonLdCommand],
    [_getSourceBase], [_getBase], [_requestOptions], [_jsonLdOptions], the
    actions of the commands [format], [lint], [compact], [expand],
    [flatten], [frame], [toRdf] and [canonize], and the top level
    [program.parseAsync(...).catch(_error)].

    A string is the sequence of bytes of its UTF-8 encoding, one Rocq
    character for each byte: a character below 128 is one byte, and the
    functions below treat the longer encodings as the source does wherever
    the program can tell the difference.

    JavaScript objects that the program uses as property bags (the parsed
    command options [cmd], the [options] object handed to the library, the
    request options) are finite maps from property names to values; reading a
    property that was never written yields [undefined].  A number is given
    by a fraction it is equal to, and the text the engine prints for it is a
    parameter.  The libraries are parameters of the development; where a
    statement is about all the requests of an invocation, a function of the
    jsonld library is given by a script of calls of the document loader. *)

From Stdlib Require Import ZArith Ascii List.
From Stdlib Require Import Numbers.DecimalString.
From stdpp Require Import base option gmap strings list.

Local Open Scope Z_scope.
Set Warnings "-register-all".

(** ** JavaScript values *)

(** A number: not-a-number, an infinity, or a finite number, given by a
    fraction [num/den] it is equal to (every finite double is one).  The
    program looks at a number in three ways: it tests it for truth, it passes
    it to [JSON.stringify] as the indentation, and it prints it. *)
Inductive number : Type :=
  | NaN
  | Infinity (negative : bool)
  | Finite (num : Z) (den : positive).

(** The number of an integer. *)
Definition int (z : Z) : number := Finite z 1.

(** The data values the program handles: command line option values, the
    entries of the option objects, and JSON documents.  An object lists its
    own enumerable properties in order. *)
Inductive value : Type :=
  | VUndefined
  | VNull
  | VBool (b : bool)
  | VNum (n : number)
  | VStr (s : string)
  | VArr (items : list value)
  | VObj (props : list (string * value))
  | VFun (name : string).

(** A property bag: [o.k] is [get o k], [o.k = v] is [<[k:=v]> o]. *)
Definition get (o : gmap string value) (k : string) : value :=
  default VUndefined (o !! k).

(** ToBoolean. *)
Definition truthy (v : value) : bool :=
  match v with
  | VUndefined | VNull => false
  | VBool b => b
  | VNum NaN => false
  | VNum (Infinity _) => true
  | VNum (Finite num _) => negb (num =? 0)
  | VStr s => negb (String.eqb s "")
  | VArr _ | VObj _ | VFun _ => true
  end.

Inductive jstype :=
  JUndefined | JObject | JBoolean | JNumber | JString | JFunction.

(** The [typeof] operator. *)
Definition typeof (v : value) : jstype :=
  match v with
  | VUndefined => JUndefined
  | VNull | VArr _ | VObj _ => JObject
  | VBool _ => JBoolean
  | VNum _ => JNumber
  | VStr _ => JString
  | VFun _ => JFunction
  end.

(** [typeof v === 'object'] *)
Definition is_object (v : value) : bool :=
  match typeof v with JObject => true | _ => false end.

(** Primitive values. *)
Inductive prim : Type :=
  | PUndefined
  | PNull
  | PBool (b : bool)
  | PNum (n : number)
  | PStr (s : string).

Definition prim_value (p : prim) : value :=
  match p with
  | PUndefined => VUndefined
  | PNull => VNull
  | PBool b => VBool b
  | PNum n => VNum n
  | PStr s => VStr s
  end.

(** A thrown value, through the properties [_error] reads.  [TPrim] is a
    thrown primitive.  [TObj] is a thrown object: the text its [toString()]
    returns, its [stack] property when that is a string, its own enumerable
    properties other than [cause], and its [cause] property
    ([TPrim PUndefined] when it has none). *)
Inductive thrown : Type :=
  | TPrim (p : prim)
  | TObj (str : string) (stack : option string)
         (props : list (string * value)) (cause : thrown).

(** ToBoolean of a thrown value: every object is truthy. *)
Definition thrown_truthy (e : thrown) : bool :=
  match e with
  | TPrim p => truthy (prim_value p)
  | TObj _ _ _ _ => true
  end.

(** ** Strings *)

(** [l.includes(s)] for a list of strings. *)
Definition mem (s : string) (l : list string) : bool :=
  existsb (String.eqb s) l.

Module Str.

Definition is_upper (c : ascii) : bool :=
  let n := nat_of_ascii c in (65 <=? n)%nat && (n <=? 90)%nat.

Definition lower_char (c : ascii) : ascii :=
  if is_upper c then ascii_of_nat (nat_of_ascii c + 32) else c.

(** [String.prototype.toLowerCase], as far as the program can tell: the
    letters A-Z are mapped to a-z, every other byte is kept.  The program
    only compares the result with words made of the characters [a-z],
    [0-9], [+], [-] and [/] without the letter k, and no character outside
    A-Z has a lower case made of those characters only, so the comparison
    comes out as in the source for every string. *)
Fixpoint toLowerCase (s : string) : string :=
  match s with
  | EmptyString => EmptyString
  | String c r => String (lower_char c) (toLowerCase r)
  end.

(** [s.indexOf(p) === 0] *)
Definition startsWith (p s : string) : bool := String.prefix p s.

(** [s.split(sep)] for a one character separator: never the empty list. *)
Fixpoint split (sep : ascii) (s : string) : list string :=
  match s with
  | EmptyString => [EmptyString]
  | String c r =>
      if Ascii.eqb c sep then EmptyString :: split sep r
      else match split sep r with
           | [] => [String c EmptyString]
           | w :: ws => String c w :: ws
           end
  end.

(** The string of the bytes [l]. *)
Definition bytes (l : list nat) : string :=
  String.string_of_list_ascii (List.map ascii_of_nat l).

(** The white space [trim] removes: WhiteSpace and LineTerminator of the
    language, each code point by its UTF-8 encoding.  These are U+0009 to
    U+000D and U+0020; U+00A0; U+1680; U+2000 to U+200A; U+2028, U+2029 and
    U+202F; U+205F; U+3000; U+FEFF. *)
Definition white_space : list string :=
  List.map bytes
    [[9]; [10]; [11]; [12]; [13]; [32];
     [194; 160];
     [225; 154; 128];
     [226; 128; 128]; [226; 128; 129]; [226; 128; 130]; [226; 128; 131];
     [226; 128; 132]; [226; 128; 133]; [226; 128; 134]; [226; 128; 135];
     [226; 128; 136]; [226; 128; 137]; [226; 128; 138];
     [226; 128; 168]; [226; 128; 169]; [226; 128; 175];
     [226; 129; 159];
     [227; 128; 128];
     [239; 187; 191]]%nat.

(** [s] without the prefix [p], when it starts with [p]. *)
Fixpoint drop_prefix (p s : string) : option string :=
  match p, s with
  | EmptyString, _ => Some s
  | String a p', String b s' =>
      if Ascii.eqb a b then drop_prefix p' s' else None
  | String _ _, EmptyString => None
  end.

(** [s] without the first of the prefixes [ps] it starts with. *)
Fixpoint drop_one (ps : list string) (s : string) : option string :=
  match ps with
  | [] => None
  | p :: ps' =>
      match drop_prefix p s with
      | Some r => Some r
      | None => drop_one ps' s
      end
  end.

(** White space code points are dropped from the start as long as there is
    one; [fuel] bounds their number. *)
Fixpoint trimStart_from (fuel : nat) (s : string) : string :=
  match fuel with
  | O => s
  | S fuel' =>
      match drop_one white_space s with
      | Some r => trimStart_from fuel' r
      | None => s
      end
  end.

Definition trimStart (s : string) : string :=
  trimStart_from (String.length s) s.

(** From the end: a character is kept with what is kept after it, unless
    the two together are one white space code point and nothing else. *)
Fixpoint trimEnd (s : string) : string :=
  match s with
  | EmptyString => EmptyString
  | String c r =>
      let t := String c (trimEnd r) in
      if mem t white_space then EmptyString else t
  end.

(** [String.prototype.trim] *)
Definition trim (s : string) : string := trimEnd (trimStart s).

(** The number of bytes of the code point that starts with the byte [c]. *)
Definition code_point_width (c : ascii) : nat :=
  let b := nat_of_ascii c in
  if (b <? 192)%nat then 1%nat
  else if (b <? 224)%nat then 2%nat
  else if (b <? 240)%nat then 3%nat
  else 4%nat.

(** [s.slice(0, n)]: the first [n] UTF-16 code units of [s].  A code point
    up to U+FFFF is one unit, a code point above it (four bytes) is two; a
    half of such a code point that the limit cuts off cannot be written as
    it is and reaches the output as U+FFFD. *)
Fixpoint take_units (n : nat) (s : string) : string :=
  match n with
  | O => EmptyString
  | S n1 =>
      match s with
      | EmptyString => EmptyString
      | String c _ =>
          let width := code_point_width c in
          let code_point := String.substring 0 width s in
          let rest := String.substring width (String.length s) s in
          if (width =? 4)%nat then
            match n1 with
            | O => bytes [239; 191; 189]%nat
            | S n2 => code_point +:+ take_units n2 rest
            end
          else code_point +:+ take_units n1 rest
      end
  end.

Fixpoint spaces (n : nat) : string :=
  match n with
  | O => EmptyString
  | S k => String " "%char (spaces k)
  end.

(** The line feed, written ['\n'] in the source. *)
Definition LF : string := String (ascii_of_nat 10) EmptyString.

Definition hex_digit (n : nat) : ascii :=
  ascii_of_nat (if (n <? 10)%nat then 48 + n else 87 + n).

(** QuoteJSONString: the characters below U+0020, the double quote and the
    backslash are escaped; every other character, the bytes of a longer
    encoding among them, is kept. *)
Fixpoint escape (s : string) : string :=
  match s with
  | EmptyString => EmptyString
  | String c r =>
      let n := nat_of_ascii c in
      let e :=
        if (n =? 8)%nat then "\b"
        else if (n =? 9)%nat then "\t"
        else if (n =? 10)%nat then "\n"
        else if (n =? 12)%nat then "\f"
        else if (n =? 13)%nat then "\r"
        else if (n =? 34)%nat then String "\"%char (String c EmptyString)
        else if (n =? 92)%nat then "\\"
        else if (n <? 32)%nat then
          "\u00" +:+ String (hex_digit (n / 16))
                       (String (hex_digit (n mod 16)) EmptyString)
        else String c EmptyString in
      e +:+ escape r
  end.

Definition dquote : string := String (ascii_of_nat 34) EmptyString.

Definition quote (s : string) : string := dquote +:+ escape s +:+ dquote.

End Str.

(** ** Results of a call *)

(** A call returns, throws, or ends the process ([process.exit]). *)
Inductive outcome (A : Type) : Type :=
  | Return (a : A)
  | Throw (e : thrown)
  | Exit (code : Z).
Arguments Return {A} a.
Arguments Throw {A} e.
Arguments Exit {A} code.

#[global] Instance outcome_ret : MRet outcome := @Return.
#[global] Instance outcome_bind : MBind outcome := fun A B k m =>
  match m with
  | Return a => k a
  | Throw e => Throw e
  | Exit c => Exit c
  end.

(** ** The process *)

(** What an invocation can observe and change: the chunks written to standard
    output, the module variable [_primary], and the calls made to
    [jsonldRequest] (location and request options), oldest first. *)
Record world : Type := World {
  stdout : list string;
  _primary : bool;
  issued : list (string * gmap string value)
}.

(** The state of a fresh process: [let _primary = true]. *)
Definition initial : world := World [] true [].

Definition M (A : Type) : Type := world -> world * outcome A.

#[global] Instance M_ret : MRet M := fun A a w => (w, Return a).
#[global] Instance M_bind : MBind M := fun A B k m w =>
  match m w with
  | (w', Return a) => k a w'
  | (w', Throw e) => (w', Throw e)
  | (w', Exit c) => (w', Exit c)
  end.

Definition lift {A} (o : outcome A) : M A := fun w => (w, o).
Definition throw {A} (e : thrown) : M A := lift (Throw e).

(** [process.exit(code)] *)
Definition process_exit {A} (code : Z) : M A := lift (Exit code).

(** [p.catch(h)] *)
Definition catch {A} (m : M A) (h : thrown -> M A) : M A := fun w =>
  match m w with
  | (w', Throw e) => h e w'
  | r => r
  end.

Definition put_chunks (l : list string) (w : world) : world :=
  World (stdout w ++ l) (_primary w) (issued w).

Definition put_chunk (s : string) (w : world) : world := put_chunks [s] w.

(** [console.log(a, b, ...)] of strings: the arguments separated by a space
    and ended by a line feed. *)
Definition console_log (args : list string) : M unit := fun w =>
  (put_chunk (String.concat " " args +:+ Str.LF) w, Return tt).

(** The exit status of the process once the top level promise has settled:
    the argument of [process.exit] if it was called, 1 for a rejection nobody
    handled, 0 otherwise. *)
Definition exit_status {A} (r : world * outcome A) : Z :=
  match r.2 with
  | Exit c => c
  | Throw _ => 1
  | Return _ => 0
  end.

(** ** [JSON.stringify(data, null, space)] *)

Module JSON.

(** ToIntegerOrInfinity: not-a-number gives 0, an infinity itself, a finite
    number its whole part (the fraction is cut off towards 0). *)
Definition ToIntegerOrInfinity (n : number) : number :=
  match n with
  | NaN => int 0
  | Infinity negative => Infinity negative
  | Finite num den => int (num ÷ Z.pos den)
  end.

(** The gap of one indentation level.  For a number [space] it is
    [min(10, ToIntegerOrInfinity(space))] spaces, and the empty string when
    that is below 1; a string gives its first 10 code units; any other
    [space] gives no gap. *)
Definition gap_of (space : value) : string :=
  match space with
  | VNum n =>
      match ToIntegerOrInfinity n with
      | Infinity false => Str.spaces 10
      | Finite z _ => Str.spaces (Z.to_nat (Z.min 10 z))
      | _ => ""
      end
  | VStr s => Str.take_units 10 s
  | _ => ""
  end.

(** The closing of SerializeJSONObject and SerializeJSONArray. *)
Definition wrap (open close gap indent : string) (parts : list string)
  : string :=
  match parts with
  | [] => open +:+ close
  | _ =>
      if String.eqb gap "" then
        open +:+ String.concat "," parts +:+ close
      else
        let inner := indent +:+ gap in
        open +:+ Str.LF +:+ inner
          +:+ String.concat ("," +:+ Str.LF +:+ inner) parts
          +:+ Str.LF +:+ indent +:+ close
  end.

Definition member (gap key text : string) : string :=
  Str.quote key +:+ ":" +:+ (if String.eqb gap "" then "" else " ") +:+ text.

(** SerializeJSONProperty: [None] is [undefined].  [number_text] is the
    engine's [Number::toString]; a number that is not finite gives
    ['null']. *)
Fixpoint serialize (number_text : number -> string) (gap indent : string)
    (v : value) {struct v} : option string :=
  match v with
  | VUndefined | VFun _ => None
  | VNull => Some "null"
  | VBool true => Some "true"
  | VBool false => Some "false"
  | VNum (Finite num den) => Some (number_text (Finite num den))
  | VNum _ => Some "null"
  | VStr s => Some (Str.quote s)
  | VArr items =>
      let inner := indent +:+ gap in
      let parts :=
        (fix elements (l : list value) : list string :=
           match l with
           | [] => []
           | x :: r =>
               default "null" (serialize number_text gap inner x)
                 :: elements r
           end) items in
      Some (wrap "[" "]" gap indent parts)
  | VObj props =>
      let inner := indent +:+ gap in
      let parts :=
        (fix members (l : list (string * value)) : list string :=
           match l with
           | [] => []
           | (k, x) :: r =>
               match serialize number_text gap inner x with
               | Some t => member gap k t :: members r
               | None => members r
               end
           end) props in
      Some (wrap "{" "}" gap indent parts)
  end.

Definition stringify (number_text : number -> string) (data space : value)
  : option string :=
  serialize number_text (gap_of space) "" data.

End JSON.

(** ** The program *)

(** [const ALLOW_ALL = ['stdin', 'file', 'http', 'https']] and its two
    companions. *)
Definition ALLOW_ALL : value :=
  VArr [VStr "stdin"; VStr "file"; VStr "http"; VStr "https"].
Definition ALLOW_DEFAULT : value := VArr [VStr "http"; VStr "https"].
Definition ALLOW_NONE : value := VArr [].

(** [a.includes(s)] for an array [a] and a string [s]. *)
Definition includes (a : value) (s : string) : bool :=
  match a with
  | VArr items =>
      existsb (fun x => match x with VStr t => String.eqb t s | _ => false end)
              items
  | _ => false
  end.

(** [input = input || '-'], for the positional argument commander passes: a
    string, or [undefined] when it is absent. *)
Definition input_or_stdin (input : option string) : string :=
  match input with
  | Some s => if String.eqb s "" then "-" else s
  | None => "-"
  end.

(** check for HTTP/HTTPS URL *)
Definition _isHTTP (url : string) : bool :=
  Str.startsWith "http://" url || Str.startsWith "https://" url.

(** ** The options every command shares

    [_jsonLdCommand] declares them with commander, which stores the value of
    an option under the camel-cased long flag: [--auto-base] under
    [autoBase], [--no-newline] as [newline = false] with [true] as the
    default.  [Indent] holds [Number(spaces)], the number commander makes of
    the argument: any number, not-a-number for an argument that is none. *)
Inductive common_option : Type :=
  | Indent (spaces : number)
  | NoNewline
  | Insecure
  | Allow (list : string)
  | InputType (type : string)
  | AutoBase
  | Base (base : string)
  | Lint
  | Safe.

Definition set_common (cmd : gmap string value) (o : common_option)
  : gmap string value :=
  match o with
  | Indent spaces => <["indent" := VNum spaces]> cmd
  | NoNewline => <["newline" := VBool false]> cmd
  | Insecure => <["insecure" := VBool true]> cmd
  | Allow list => <["allow" := VStr list]> cmd
  | InputType type => <["type" := VStr type]> cmd
  | AutoBase => <["autoBase" := VBool true]> cmd
  | Base base => <["base" := VStr base]> cmd
  | Lint => <["lint" := VBool true]> cmd
  | Safe => <["safe" := VBool true]> cmd
  end.

(** init common command options: the option values of a command line that
    gives the options [given], in that order. *)
Definition _jsonLdCommand (given : list common_option) : gmap string value :=
  foldl set_common
        (<["indent" := VNum (int 2)]> (<["newline" := VBool true]> ∅)) given.

(** ** The version of the program

    [program.version(version)]: the object [version] keeps the version in
    [this.value] and reads [package.json] when [toString] finds it
    undefined.  [version_toString value read] is one call of [toString] with
    [this.value = cached], where [read] is what reading and parsing the file
    gives at that moment; it returns the new [this.value] and the result. *)
Definition version_toString (cached : value)
    (read : outcome (gmap string value))
  : value * outcome value :=
  match cached with
  | VUndefined =>
      match read with
      | Return pkg => (get pkg "version", Return (get pkg "version"))
      | Throw e => (VUndefined, Throw e)
      | Exit c => (VUndefined, Exit c)
      end
  | _ => (cached, Return cached)
  end.

(** ** The options of [frame]

    [--embed], [--explicit] and [--omit-default] take an argument that
    commander hands to [boolify]; without the option the declared default is
    the value.  [-f/--frame] is stored as it is. *)
Inductive frame_option : Type :=
  | FrameFile (file : string)
  | Embed (embed : string)
  | Explicit (explicit : string)
  | OmitDefault (omitDefault : string).

(** The argument of an option that goes through [boolify]. *)
Definition boolean_argument (o : frame_option) : option string :=
  match o with
  | FrameFile _ => None
  | Embed v | Explicit v | OmitDefault v => Some v
  end.

(** ** The options of [compact]

    [-c/--context] is stored as it is; [compactArrays] is true unless
    [-A/--no-compact-arrays] is given; [-g/--graph] stores true. *)
Inductive compact_option : Type :=
  | Context (context : string)
  | NoCompactArrays
  | Graph.

Definition set_compact (cmd : gmap string value) (o : compact_option)
  : gmap string value :=
  match o with
  | Context context => <["context" := VStr context]> cmd
  | NoCompactArrays => <["compactArrays" := VBool false]> cmd
  | Graph => <["graph" := VBool true]> cmd
  end.

(** The option values of [compact] for a command line that gives the common
    options [common] and the options [given] of [compact]. *)
Definition compact_command (common : list common_option)
    (given : list compact_option) : gmap string value :=
  foldl set_compact (<["compactArrays" := VBool true]> (_jsonLdCommand common))
        given.

(** ** Predicates on strings *)

(** No character of [s] is a control character (below 32): [s] is one line
    of text. *)
Fixpoint no_control (s : string) : bool :=
  match s with
  | EmptyString => true
  | String c r => (32 <=? nat_of_ascii c)%nat && no_control r
  end.

(** [c] occurs in [s]. *)
Fixpoint has_char (c : ascii) (s : string) : bool :=
  match s with
  | EmptyString => false
  | String d r => Ascii.eqb d c || has_char c r
  end.

(** [s] has no upper-case letter. *)
Fixpoint no_upper (s : string) : bool :=
  match s with
  | EmptyString => true
  | String c r => negb (Str.is_upper c) && no_upper r
  end.

(** ** A call of the jsonld library

    What a function of the library does, as the program can see it: it
    answers (with a result or an error); or it asks the document loader for
    a location and goes on with what the loader gave it, a document or an
    error; or it prints a line and goes on. *)
Inductive script : Type :=
  | Answer (result : outcome value)
  | Load (url : string) (next : outcome value -> script)
  | Print (line : string) (next : script).

(** The script [t] run with the document loader [loader].  A loader that
    ends the process ends the run. *)
Fixpoint run (t : script) (loader : string -> M value) (w : world)
  : world * outcome value :=
  match t with
  | Answer result => (w, result)
  | Load url next =>
      match loader url w with
      | (w', Exit c) => (w', Exit c)
      | (w', r) => run (next r) loader w'
      end
  | Print line next => run next loader (put_chunk line w)
  end.

(** A function of the library that does what a script says: [t] gives the
    script for an input and options, and for a context or frame where the
    function takes one. *)
Definition scripted (t : string -> gmap string value -> script)
    (loader : string -> M value) (input : string)
    (options : gmap string value) : M value :=
  run (t input options) loader.

Definition scripted_with (t : string -> value -> gmap string value -> script)
    (loader : string -> M value) (input : string) (arg : value)
    (options : gmap string value) : M value :=
  run (t input arg options) loader.

(** ** A sample environment

    Stand-ins for the engine and the two libraries, to run the program on
    examples. *)
Module Sample.

(** Whole numbers in decimal digits; the stand-in drops a fraction. *)
Definition number_text (n : number) : string :=
  match n with
  | NaN => "NaN"
  | Infinity negative => if negative then "-Infinity" else "Infinity"
  | Finite num den => NilZero.string_of_int (Z.to_int (num ÷ Z.pos den))
  end.

Definition stack_frames : string :=
  Str.LF +:+ "    at file:///usr/lib/node_modules/jsonld-cli/bin/jsonld.js".

Definition inspect (props : list (string * value)) : string :=
  "{ " +:+ String.concat ", " (fst <$> props) +:+ " }".

Definition object_text (v : value) : string := "[object Object]".

Definition write_error (chunk : value) : thrown :=
  TObj "TypeError [ERR_INVALID_ARG_TYPE]: The chunk argument must be a string"
       None [("code", VStr "ERR_INVALID_ARG_TYPE")] (TPrim PUndefined).

Definition cwd : string := "/home/user".

Definition path_resolve (from to : string) : string := from +:+ "/" +:+ to.

(** Every location holds a document that names the location. *)
Definition jsonldRequest (url : string) (options : gmap string value)
  : outcome (gmap string value) :=
  Return {[ "data" := VObj [("@id", VStr url)] ]}.

(** Load the input, then the context, and answer with both. *)
Definition jsonld_compact (loader : string -> M value) (input : string)
    (ctx : value) (options : gmap string value) : M value :=
  doc ← loader input;
  context ← match ctx with
            | VStr url => loader url
            | _ => mret ctx
            end;
  mret (VObj [("@context", context); ("@graph", VArr [doc])]).

Definition jsonld_frame := jsonld_compact.

(** Load the input and answer with it in an array. *)
Definition jsonld_expand (loader : string -> M value) (input : string)
    (options : gmap string value) : M value :=
  doc ← loader input;
  mret (VArr [doc]).

Definition jsonld_toRDF (loader : string -> M value) (input : string)
    (options : gmap string value) : M value :=
  doc ← loader input;
  mret (VStr "<http://example.org/s> <http://example.org/p> _:b0 .").

Definition jsonld_canonize := jsonld_toRDF.

Definition jsonld_flatten := jsonld_compact.

(** Every location holds a JSON document that is a string. *)
Definition string_request (url : string) (options : gmap string value)
  : outcome (gmap string value) :=
  Return {[ "data" := VStr " hello world " ]}.

(** A script that answers [null] at once. *)
Definition idle (input : string) (options : gmap string value) : script :=
  Answer (Return VNull).

Definition idle_with (input : string) (arg : value)
    (options : gmap string value) : script :=
  Answer (Return VNull).

(** [jsonld.expand] as a script: load the input, then the context it names,
    and answer with the document in an array. *)
Definition expand_script (input : string) (options : gmap string value)
  : script :=
  Load input (fun document =>
    match document with
    | Return d =>
        Load "https://example.org/context.jsonld" (fun context =>
          match context with
          | Return _ => Answer (Return (VArr [d]))
          | failure => Answer failure
          end)
    | failure => Answer failure
    end).

End Sample.

Section Program.

(** [Number::toString]: the text the engine prints for a number. *)
Variable number_text : number -> string.

(** What the engine appends to the first line of the [stack] of a new error. *)
Variable stack_frames : string.

(** [util.inspect(o, {colors: true, depth: 10})] of an object with the given
    properties. *)
Variable inspect : list (string * value) -> string.

(** The text [+] gives an array, an object or a function. *)
Variable object_text : value -> string.

(** The error [process.stdout.write] throws for a chunk that is not a
    string. *)
Variable write_error : value -> thrown.

(** [process.cwd()] and [path.resolve(from, to)]. *)
Variable cwd : string.
Variable path_resolve : string -> string -> string.

(** [jsonldRequest(url, options)] of the jsonld-request library: the
    response object, which holds the parsed document under [data]. *)
Variable jsonldRequest :
  string -> gmap string value -> outcome (gmap string value).

(** The jsonld library.  Each function gets the document loader found in its
    [options] as its first argument here, the input, the context or frame
    where it takes one, and the [options] object. *)
Variable jsonld_toRDF :
  (string -> M value) -> string -> gmap string value -> M value.
Variable jsonld_expand :
  (string -> M value) -> string -> gmap string value -> M value.
Variable jsonld_canonize :
  (string -> M value) -> string -> gmap string value -> M value.
Variable jsonld_compact :
  (string -> M value) -> string -> value -> gmap string value -> M value.
Variable jsonld_flatten :
  (string -> M value) -> string -> value -> gmap string value -> M value.
Variable jsonld_frame :
  (string -> M value) -> string -> value -> gmap string value -> M value.

(** The text of a primitive: [String(p)], which is also what [console.log]
    and [+] on a string produce for it. *)
Definition to_display (p : prim) : string :=
  match p with
  | PUndefined => "undefined"
  | PNull => "null"
  | PBool true => "true"
  | PBool false => "false"
  | PNum n => number_text n
  | PStr s => s
  end.

(** [err.toString()] *)
Definition toString (e : thrown) : string :=
  match e with
  | TPrim p => to_display p
  | TObj str _ _ _ => str
  end.

(** [new Error(msg)]: [toString()] is ["Error: " + msg], [stack] starts with
    the same line, no enumerable property, no cause. *)
Definition new_Error (msg : string) : thrown :=
  TObj ("Error: " +:+ msg) (Some ("Error: " +:+ msg +:+ stack_frames)) []
       (TPrim PUndefined).

(** The [TypeError] the engine throws for a call of a method the receiver
    does not have. *)
Definition TypeError (msg : string) : thrown :=
  TObj ("TypeError: " +:+ msg) (Some ("TypeError: " +:+ msg +:+ stack_frames))
       [] (TPrim PUndefined).

(** [process.stdout.write(chunk)]: a string is written; any other value the
    program can pass is refused with [write_error chunk]. *)
Definition process_stdout_write (chunk : value) : M unit :=
  match chunk with
  | VStr s => fun w => (put_chunk s w, Return tt)
  | _ => throw (write_error chunk)
  end.

(** Parse the string or value and return the boolean value encoded or raise
    an exception. *)
Definition boolify (v : value) : outcome bool :=
  match v with
  | VBool b => Return b
  | VStr s =>
      if negb (String.eqb s "") then
        let l := Str.toLowerCase s in
        if String.eqb l "true" || String.eqb l "t" || String.eqb l "1"
           || String.eqb l "yes" || String.eqb l "y" then Return true
        else if String.eqb l "false" || String.eqb l "f" || String.eqb l "0"
                || String.eqb l "no" || String.eqb l "n" then Return false
        else Throw (new_Error ("Invalid boolean:" +:+ s))
      else Throw (new_Error ("Invalid boolean:" +:+ s))
  | VUndefined => Throw (new_Error "Invalid boolean:undefined")
  | VNull => Throw (new_Error "Invalid boolean:null")
  | VNum n => Throw (new_Error ("Invalid boolean:" +:+ number_text n))
  | VArr _ | VObj _ | VFun _ =>
      Throw (new_Error ("Invalid boolean:" +:+ object_text v))
  end.

(** common output function *)
Definition _output (data : value) (cmd : gmap string value) : M unit :=
  (if is_object data then
     match JSON.stringify number_text data (get cmd "indent") with
     | Some output => process_stdout_write (VStr output)
     | None => process_stdout_write VUndefined
     end
   else
     match data with
     | VStr s => process_stdout_write (VStr (Str.trim s))
     | _ => process_stdout_write data
     end);;
  if truthy (get cmd "newline") then process_stdout_write (VStr Str.LF)
  else mret tt.

(** error handler *)
Fixpoint _error (err : thrown) (msg : string) {struct err} : M unit :=
  if thrown_truthy err then
    match err with
    | TPrim p =>
        console_log [to_display p];;
        process_exit 1
    | TObj str stack props cause =>
        (match stack with
         | Some s =>
             if negb (String.eqb s "") then console_log [s]
             else console_log [str]
         | None => console_log [str]
         end);;
        (if negb (length props =? 0)%nat then console_log [msg; inspect props]
         else mret tt);;
        (if thrown_truthy cause then _error cause "Error Cause:"
         else mret tt);;
        process_exit 1
    end
  else mret tt.

(** request wrapper to handle primary/secondary loading access *)
Definition _jsonldRequest (url : string)
    (reqOptions options : gmap string value) : M (gmap string value) :=
  fun w =>
    let _options := reqOptions in
    let _options :=
      if _primary w then <["allow" := ALLOW_ALL]> _options
      else <["allow" := get options "allow"]> _options in
    (World (stdout w) false (issued w ++ [(url, _options)]),
     jsonldRequest url _options).

(** determine source base *)
Definition _getSourceBase (command : gmap string value) (input : string)
  : value :=
  if String.eqb input "-" then VStr "stdin://"
  else if _isHTTP input then VStr input
  else VStr ("file://" +:+ path_resolve cwd input).

(** determine base *)
Definition _getBase (command : gmap string value) (input : string) : value :=
  if truthy (get command "base") then get command "base"
  else if truthy (get command "sourceBase") then _getSourceBase command input
  else VNull.

(** init common request options *)
Definition _requestOptions (command : gmap string value) (input : string)
  : gmap string value :=
  let options : gmap string value := ∅ in
  let options :=
    if truthy (get command "insecure") then
      <["agent" := VObj [("rejectUnauthorized", VBool false)]]> options
    else options in
  let options :=
    if truthy (get command "type") then
      <["dataType" := get command "type"]> options
    else options in
  <["base" := _getBase command input]> options.

(** init common jsonld options.  The document loader is a closure over
    [command] and over the [options] object itself: see [documentLoader]. *)
Definition _jsonLdOptions (command : gmap string value) (input : string)
  : outcome (gmap string value) :=
  let options : gmap string value := ∅ in
  options ←
    (if truthy (get command "allow") then
       match get command "allow" with
       | VStr list =>
           let options :=
             <["allow" := VArr (VStr <$> Str.split "," list)]> options in
           if includes (get options "allow") "all" then
             Return (<["allow" := ALLOW_ALL]> options)
           else if includes (get options "allow") "none" then
             Return (<["allow" := ALLOW_NONE]> options)
           else Return options
       | _ => Throw (TypeError "command.allow.split is not a function")
       end
     else Return (<["access" := ALLOW_DEFAULT]> options));
  let options :=
    if truthy (get command "lint") then
      <["eventHandler" := VFun "_warningHandler"]> options
    else options in
  let options :=
    if truthy (get command "safe") then <["safe" := VBool true]> options
    else options in
  let options := <["base" := _getBase command input]> options in
  Return (<["documentLoader" := VFun "documentLoader"]> options).

(** The function stored in [options.documentLoader].  [options] is the object
    [_jsonLdOptions] returned, as it is when the loader runs: the commands add
    their own entries to that same object before they call the library. *)
Definition documentLoader (command options : gmap string value)
    (url : string) : M value :=
  let reqOpts := _requestOptions command url in
  reqResult ← _jsonldRequest url reqOpts options;
  mret (VObj [("contextUrl", VNull);
              ("documentUrl", VStr url);
              ("document",
               if truthy (get reqResult "data") then get reqResult "data"
               else VNull)]).

(** ** The commands *)

Definition nquads_aliases : list string :=
  ["nquads"; "n-quads"; "application/nquads"; "application/n-quads"].

Definition json_aliases : list string :=
  ["json"; "jsonld"; "json-ld"; "ld+json"; "application/json";
   "application/ld+json"].

Definition format (input : option string) (cmd : gmap string value)
  : M unit :=
  let input := input_or_stdin input in
  options ← lift (_jsonLdOptions cmd input);
  let options :=
    <["format" := if truthy (get cmd "format") then get cmd "format"
                  else VStr "json"]> options in
  let options :=
    if truthy (get cmd "nQuads") then
      <["format" := VStr "application/n-quads"]> options
    else options in
  let options :=
    if truthy (get cmd "json") then
      <["format" := VStr "application/json"]> options
    else options in
  let options :=
    if truthy (get cmd "context") then
      <["expandContext" := get cmd "context"]> options
    else options in
  match get options "format" with
  | VStr f =>
      if mem (Str.toLowerCase f) nquads_aliases then
        let options := <["format" := VStr "application/n-quads"]> options in
        result ← jsonld_toRDF (documentLoader cmd options) input options;
        _output result cmd
      else if mem (Str.toLowerCase f) json_aliases then
        let reqOpts := _requestOptions cmd input in
        reqResult ← _jsonldRequest input reqOpts options;
        _output (get reqResult "data") cmd
      else throw (new_Error ("ERROR: Unknown format: " +:+ f))
  | _ => throw (TypeError "options.format.toLowerCase is not a function")
  end.

Definition lint (input : option string) (cmd : gmap string value) : M unit :=
  let input := input_or_stdin input in
  options ← lift (_jsonLdOptions cmd input);
  jsonld_expand (documentLoader cmd options) input
    (<["eventHandler" := VFun "_warningHandler"]> options);;
  mret tt.

Definition compact (input : option string) (cmd : gmap string value)
  : M unit :=
  let input := input_or_stdin input in
  if negb (truthy (get cmd "context")) then
    throw (new_Error "ERROR: Context not specified, use -c/--context")
  else
    options ← lift (_jsonLdOptions cmd input);
    let options := <["compactArrays" := get cmd "compactArrays"]> options in
    let options := <["graph" := VBool (truthy (get cmd "graph"))]> options in
    result ← jsonld_compact (documentLoader cmd options) input
               (get cmd "context") options;
    _output result cmd.

Definition expand (input : option string) (cmd : gmap string value)
  : M unit :=
  let input := input_or_stdin input in
  options ← lift (_jsonLdOptions cmd input);
  let options :=
    if truthy (get cmd "context") then
      <["expandContext" := get cmd "context"]> options
    else options in
  let options :=
    <["keepFreeFloatingNodes" := get cmd "keepFreeFloatingNodes"]> options in
  result ← jsonld_expand (documentLoader cmd options) input options;
  _output result cmd.

Definition flatten (input : option string) (cmd : gmap string value)
  : M unit :=
  let input := input_or_stdin input in
  options ← lift (_jsonLdOptions cmd input);
  result ← jsonld_flatten (documentLoader cmd options) input
             (get cmd "context") options;
  _output result cmd.

Definition frame (input : option string) (cmd : gmap string value)
  : M unit :=
  let input := input_or_stdin input in
  if negb (truthy (get cmd "frame")) then
    throw (new_Error "ERROR: Frame not specified, use -f/--frame")
  else
    options ← lift (_jsonLdOptions cmd input);
    let options := <["embed" := get cmd "embed"]> options in
    let options := <["explicit" := get cmd "explicit"]> options in
    let options := <["omitDefault" := get cmd "omitDefault"]> options in
    result ← jsonld_frame (documentLoader cmd options) input
               (get cmd "frame") options;
    _output result cmd.

Definition toRdf (input : option string) (cmd : gmap string value)
  : M unit :=
  let input := input_or_stdin input in
  options ← lift (_jsonLdOptions cmd input);
  let options :=
    if truthy (get cmd "nQuads") then
      <["format" := VStr "application/n-quads"]> options
    else options in
  let options :=
    if truthy (get cmd "generalizedRdf") then
      <["produceGeneralizedRdf" := VBool true]> options
    else options in
  let options :=
    if truthy (get cmd "format") then <["format" := get cmd "format"]> options
    else options in
  result ← jsonld_toRDF (documentLoader cmd options) input options;
  _output result cmd.

Definition canonize (input : option string) (cmd : gmap string value)
  : M unit :=
  let input := input_or_stdin input in
  options ← lift (_jsonLdOptions cmd input);
  let options :=
    if truthy (get cmd "nQuads") then
      <["format" := VStr "application/n-quads"]> options
    else options in
  let options :=
    if truthy (get cmd "format") then <["format" := get cmd "format"]> options
    else options in
  result ← jsonld_canonize (documentLoader cmd options) input options;
  _output result cmd.

(** [program.parseAsync(process.argv).catch(e => { _error(e); })], for the
    action commander dispatches to. *)
Definition main (action : M unit) : M unit :=
  catch action (fun e => _error e "Error:").

(** ** The rest of the program *)

(** The text of a value inside a template literal: [`${v}`]. *)
Definition to_text (v : value) : string :=
  match v with
  | VUndefined => "undefined"
  | VNull => "null"
  | VBool true => "true"
  | VBool false => "false"
  | VNum n => number_text n
  | VStr s => s
  | VArr _ | VObj _ | VFun _ => object_text v
  end.

(** [o.k] for an object given by its properties. *)
Definition prop (o : list (string * value)) (k : string) : value :=
  match List.find (fun kv => String.eqb kv.1 k) o with
  | Some kv => kv.2
  | None => VUndefined
  end.

(** [v === 'warning'] *)
Definition is_warning (v : value) : bool :=
  match v with
  | VStr s => String.eqb s "warning"
  | _ => false
  end.

(** lint warning handler *)
Definition _warningHandler (event : list (string * value)) (next : M unit)
  : M unit :=
  (if is_warning (prop event "level") then
     console_log ["WARNING: " +:+ to_text (prop event "message")];;
     console_log [inspect event]
   else mret tt);;
  next.

(** One option of [frame] applied to the option values so far. *)
Definition set_frame (cmd : gmap string value) (o : frame_option)
  : outcome (gmap string value) :=
  match o with
  | FrameFile file => Return (<["frame" := VStr file]> cmd)
  | Embed v => b ← boolify (VStr v); Return (<["embed" := VBool b]> cmd)
  | Explicit v => b ← boolify (VStr v); Return (<["explicit" := VBool b]> cmd)
  | OmitDefault v =>
      b ← boolify (VStr v); Return (<["omitDefault" := VBool b]> cmd)
  end.

Fixpoint set_frame_options (cmd : gmap string value)
    (given : list frame_option) : outcome (gmap string value) :=
  match given with
  | [] => Return cmd
  | o :: rest => cmd' ← set_frame cmd o; set_frame_options cmd' rest
  end.

(** The option values of [frame] for a command line that gives the common
    options [common] and the options [given] of [frame]. *)
Definition frame_command (common : list common_option)
    (given : list frame_option) : outcome (gmap string value) :=
  set_frame_options
    (<["omitDefault" := VBool false]>
       (<["explicit" := VBool false]>
          (<["embed" := VBool true]> (_jsonLdCommand common))))
    given.

(** ** Statements

    The definitions below put into Rocq what the specification says, next to
    the functions above, which say what the program does. *)

(** The allow-list the specification derives from a value of [-a/--allow]. *)
Definition allow_of (list : string) : value :=
  let tokens := Str.split "," list in
  if mem "all" tokens then ALLOW_ALL
  else if mem "none" tokens then ALLOW_NONE
  else VArr (VStr <$> tokens).

(** The world after the requests [calls] (location and request options) went
    through the wrapper in that order, whatever each of them returned. *)
Definition after_requests (options : gmap string value)
    (calls : list (string * gmap string value)) (w : world) : world :=
  foldl (fun w c => (_jsonldRequest c.1 c.2 options w).1) w calls.

(** The first line printed for an error: its stack trace if it has one, its
    string form otherwise. *)
Definition headline (e : thrown) : string :=
  match e with
  | TObj str (Some s) _ _ => if String.eqb s "" then str else s
  | _ => toString e
  end.

(** The report of an error, line by line: the headline, the own enumerable
    properties under [label] when there are any, then the report of the cause
    when there is one. *)
Fixpoint report (label : string) (e : thrown) : list string :=
  (headline e +:+ Str.LF) ::
  match e with
  | TPrim _ => []
  | TObj _ _ props cause =>
      match props with
      | [] => []
      | _ => [(label +:+ " " +:+ inspect props) +:+ Str.LF]
      end ++
      (if thrown_truthy cause then report "Error Cause:" cause else [])
  end.

(** The output format [format] selects: [-j] before [-q] before [-f], and
    ['json'] when none is given. *)
Definition selected_format (cmd : gmap string value) : value :=
  if truthy (get cmd "json") then VStr "application/json"
  else if truthy (get cmd "nQuads") then VStr "application/n-quads"
  else if truthy (get cmd "format") then get cmd "format"
  else VStr "json".

(** The JSON text of [data] with [n] spaces for each level of nesting. *)
Definition json_indented (n : nat) (data : value) : option string :=
  JSON.serialize number_text (Str.spaces n) "" data.

(** The trailing newline, unless [-N/--no-newline] is given. *)
Definition trailing_newline (cmd : gmap string value) : list string :=
  if truthy (get cmd "newline") then [Str.LF] else [].

(** [s] is made of white space only. *)
Inductive white : string -> Prop :=
  | white_nil : white ""
  | white_cons (p s : string) :
      p ∈ Str.white_space -> white s -> white (p +:+ s).

(** [t] is [s] without its leading and trailing white space: white space
    only was cut off at both ends, and [t] neither starts nor ends with a
    white space code point. *)
Definition trimmed_of (s t : string) : Prop :=
  ∃ l r, s = l +:+ t +:+ r ∧ white l ∧ white r ∧
    ∀ p u, p ∈ Str.white_space → t ≠ p +:+ u ∧ t ≠ u +:+ p.

(** [s] is [word] up to the case of its letters: [s] has the characters of
    [word], except that where [word] has one of the letters a to z, [s] may
    have the same letter in upper case. *)
Fixpoint matches_ignoring_case (word s : string) : bool :=
  match word, s with
  | EmptyString, EmptyString => true
  | String w word', String c s' =>
      (Ascii.eqb c w
       || ((97 <=? nat_of_ascii w)%nat && (nat_of_ascii w <=? 122)%nat
           && (nat_of_ascii c + 32 =? nat_of_ascii w)%nat))
      && matches_ignoring_case word' s'
  | _, _ => false
  end.

(** [s] is one of [words], up to the case of its letters. *)
Definition one_of (words : list string) (s : string) : bool :=
  existsb (fun word => matches_ignoring_case word s) words.

(** What is written for a result [data]: for an object (an array and [null]
    are objects too) its JSON text, for a string the string without the white
    space around it, and after either of them the trailing newline; no other
    result can be written. *)
Definition written (data : value) (cmd : gmap string value) (w : world)
  : world * outcome unit :=
  match data with
  | VNull | VArr _ | VObj _ =>
      (put_chunks
         (default "" (JSON.stringify number_text data (get cmd "indent"))
            :: trailing_newline cmd) w,
       Return tt)
  | VStr s => (put_chunks (Str.trim s :: trailing_newline cmd) w, Return tt)
  | _ => (w, Throw (write_error data))
  end.

(** The result of [call] written: nothing is written when the call fails. *)
Definition then_written (call : M value) (cmd : gmap string value)
  : M unit :=
  fun w =>
    match call w with
    | (w', Return result) => written result cmd w'
    | (w', Throw e) => (w', Throw e)
    | (w', Exit c) => (w', Exit c)
    end.

(** The requests of an invocation follow the policy: the first one was
    issued with the full allow-list, every later one with [secondary]. *)
Definition allow_policy (secondary : value)
    (requests : list (string * gmap string value)) : Prop :=
  match requests with
  | [] => True
  | first :: later =>
      first.2 !! "allow" =
        Some (VArr [VStr "stdin"; VStr "file"; VStr "http"; VStr "https"]) ∧
      Forall (fun r => r.2 !! "allow" = Some secondary) later
  end.

(** The state of an invocation that follows the policy: either no request
    has been made and the next one is the primary one, or requests have been
    made, they follow the policy, and the next one is a secondary one. *)
Definition follows_policy (secondary : value) (w : world) : Prop :=
  (_primary w = true ∧ issued w = []) ∨
  (_primary w = false ∧ issued w ≠ [] ∧ allow_policy secondary (issued w)).

(** A step that keeps an invocation within [P]. *)
Definition keeps (P : world -> Prop) {A : Type} (m : M A) : Prop :=
  ∀ w, P w → P (m w).1.

(** [P] is about the requests made and about [_primary], not about what was
    written. *)
Definition about_requests (P : world -> Prop) : Prop :=
  ∀ w w', issued w' = issued w → _primary w' = _primary w → P w → P w'.

(** Every request made so far carries the request options of the command
    line: apart from [allow], which the wrapper sets, its options are what
    [_requestOptions] builds for its location. *)
Definition carries_request_options (cmd : gmap string value) (w : world)
  : Prop :=
  Forall (fun r => ∀ k, k ≠ "allow" →
                        r.2 !! k = _requestOptions cmd r.1 !! k)
         (issued w).

(** The last value a command line gives for an option that takes one. *)
Definition last_given {O A : Type} (sel : O -> option A) (given : list O)
  : option A :=
  last (omap sel given).

Definition context_given (o : compact_option) : option string :=
  match o with Context c => Some c | _ => None end.

Definition base_given (o : common_option) : option string :=
  match o with Base b => Some b | _ => None end.

Definition is_no_compact_arrays (o : compact_option) : bool :=
  match o with NoCompactArrays => true | _ => false end.

Definition is_graph (o : compact_option) : bool :=
  match o with Graph => true | _ => false end.

Definition is_safe (o : common_option) : bool :=
  match o with Safe => true | _ => false end.

Definition is_insecure (o : common_option) : bool :=
  match o with Insecure => true | _ => false end.

Definition type_given (o : common_option) : option string :=
  match o with InputType t => Some t | _ => None end.

Definition embed_given (o : frame_option) : option string :=
  match o with Embed v => Some v | _ => None end.

Definition explicit_given (o : frame_option) : option string :=
  match o with Explicit v => Some v | _ => None end.

Definition omit_default_given (o : frame_option) : option string :=
  match o with OmitDefault v => Some v | _ => None end.

(** [boolify] accepts the argument [v]. *)
Definition accepted (v : string) : Prop :=
  ∃ b, boolify (VStr v) = Return b.

(** The base IRI a command line gives: the last [-b/--base] when it is not
    empty, [null] otherwise. *)
Definition base_of_command_line (common : list common_option) : value :=
  match last_given base_given common with
  | Some b => if String.eqb b "" then VNull else VStr b
  | None => VNull
  end.

(** ** Proofs *)

Lemma get_insert_eq (o : gmap string value) (k : string) (v : value) :
  get (<[k := v]> o) k = v.
Proof. unfold get. by rewrite lookup_insert_eq. Qed.

Lemma get_insert_ne (o : gmap string value) (k k' : string) (v : value) :
  k' ≠ k → get (<[k' := v]> o) k = get o k.
Proof. intros Hne. unfold get. by rewrite lookup_insert_ne. Qed.

Lemma eqb_sym_str (a b : string) : String.eqb a b = String.eqb b a.
Proof.
  destruct (String.eqb_spec a b) as [->|Hne].
  - symmetry. apply String.eqb_refl.
  - symmetry. apply String.eqb_neq. congruence.
Qed.

Lemma includes_strings (s : string) (l : list string) :
  includes (VArr (VStr <$> l)) s = mem s l.
Proof.
  unfold includes, mem. induction l as [|x l IH]; [done|].
  rewrite fmap_cons. cbn [existsb]. by rewrite IH, (eqb_sym_str x s).
Qed.

Lemma mem_elem_of (s : string) (l : list string) :
  mem s l = true ↔ s ∈ l.
Proof.
  unfold mem. rewrite existsb_exists. split.
  - intros (x & Hx & Heq). apply String.eqb_eq in Heq as ->.
    by apply list_elem_of_In.
  - intros Hs. exists s. split; [by apply list_elem_of_In|].
    apply String.eqb_refl.
Qed.

(** The lower case of a character is a given character without upper case
    exactly when the character is that one, or is its upper case. *)
Lemma lower_char_matches (c w : ascii) :
  Str.is_upper w = false →
  Ascii.eqb (Str.lower_char c) w =
    (Ascii.eqb c w
     || ((97 <=? nat_of_ascii w)%nat && (nat_of_ascii w <=? 122)%nat
         && (nat_of_ascii c + 32 =? nat_of_ascii w)%nat)).
Proof.
  unfold Str.lower_char, Str.is_upper. intros Hw.
  pose proof (nat_ascii_bounded c) as Hc256.
  destruct ((65 <=? nat_of_ascii c)%nat && (nat_of_ascii c <=? 90)%nat)
    eqn:Hc.
  - apply andb_true_iff in Hc as [H1 H2].
    apply Nat.leb_le in H1. apply Nat.leb_le in H2.
    assert (Hne : Ascii.eqb c w = false).
    { apply Ascii.eqb_neq. intros ->.
      apply andb_false_iff in Hw as [Hw|Hw]; apply Nat.leb_gt in Hw; lia. }
    rewrite Hne. cbn [orb].
    destruct (Nat.eqb_spec (nat_of_ascii c + 32) (nat_of_ascii w))
      as [Heq|Hneq].
    + rewrite andb_true_r.
      replace ((97 <=? nat_of_ascii w)%nat && (nat_of_ascii w <=? 122)%nat)
        with true.
      * apply Ascii.eqb_eq. rewrite Heq. apply ascii_nat_embedding.
      * symmetry. apply andb_true_iff. split; apply Nat.leb_le; lia.
    + rewrite andb_false_r. apply Ascii.eqb_neq. intros Heq. apply Hneq.
      rewrite <- Heq. symmetry. apply nat_ascii_embedding. lia.
  - destruct (Ascii.eqb c w); [done|]. cbn [orb]. symmetry.
    apply andb_false_iff.
    destruct (Nat.eqb_spec (nat_of_ascii c + 32) (nat_of_ascii w))
      as [Heq|Hneq]; [left|by right].
    apply andb_false_iff in Hc as [Hc|Hc]; apply Nat.leb_gt in Hc;
      apply andb_false_iff; [left|right]; apply Nat.leb_gt; lia.
Qed.

(** Comparing the lower case of [s] with a word without upper-case letters
    is matching [s] with the word up to case. *)
Lemma toLowerCase_matches (word : string) :
  no_upper word = true →
  ∀ s, String.eqb (Str.toLowerCase s) word = matches_ignoring_case word s.
Proof.
  induction word as [|w word IH]; intros Hword s.
  - by destruct s.
  - simpl in Hword. apply andb_true_iff in Hword as [Hw Hword].
    apply negb_true_iff in Hw.
    destruct s as [|c s]; [done|]. simpl.
    by rewrite (lower_char_matches c w Hw), (IH Hword s).
Qed.

Lemma one_of_lower (words : list string) (s : string) :
  forallb no_upper words = true →
  mem (Str.toLowerCase s) words = one_of words s.
Proof.
  unfold mem, one_of. induction words as [|word words IH]; [done|].
  simpl. intros [Hw Hws]%andb_true_iff.
  by rewrite (toLowerCase_matches word Hw s), (IH Hws).
Qed.

Lemma boolify_string (v : string) :
  (∃ b, boolify (VStr v) = Return b) ∨
  boolify (VStr v) = Throw (new_Error ("Invalid boolean:" +:+ v)).
Proof.
  unfold boolify. destruct (negb (String.eqb v "")); [|by right].
  cbv zeta.
  destruct (_ || _); [left; by eexists|].
  destruct (_ || _); [left; by eexists|by right].
Qed.

(** C10. [boolify] returns a boolean unchanged.  On a string it is decided
    by ten words, whatever the case of the letters of the string: ['true'],
    ['t'], ['1'], ['yes'] and ['y'] give [true]; ['false'], ['f'], ['0'],
    ['no'] and ['n'] give [false]; every other string, the empty one too,
    raises an error whose message is ['Invalid boolean:'] followed by the
    string.  This is how [frame] reads the arguments of [--embed],
    [--explicit] and [--omit-default]: an argument [boolify] accepts is
    stored as the boolean it gives, and one it rejects makes the command line
    fail with that error. *)
Theorem boolify_total :
  (∀ b, boolify (VBool b) = Return b) ∧
  (∀ s, boolify (VStr s) =
        if one_of ["true"; "t"; "1"; "yes"; "y"] s then Return true
        else if one_of ["false"; "f"; "0"; "no"; "n"] s then Return false
        else Throw (new_Error ("Invalid boolean:" +:+ s))) ∧
  (boolify (VStr "TRUE") = Return true ∧
   boolify (VStr "Yes") = Return true ∧
   boolify (VStr "1") = Return true ∧
   boolify (VStr "fAlSe") = Return false ∧
   boolify (VStr "N") = Return false ∧
   boolify (VStr "") = Throw (new_Error "Invalid boolean:") ∧
   boolify (VStr "on") = Throw (new_Error "Invalid boolean:on") ∧
   boolify (VStr " true") = Throw (new_Error "Invalid boolean: true")) ∧
  (∀ common,
     ∃ defaults,
       frame_command common [] = Return defaults ∧
       get defaults "embed" = VBool true ∧
       get defaults "explicit" = VBool false ∧
       get defaults "omitDefault" = VBool false ∧
       ∀ v,
         match boolify (VStr v) with
         | Return b =>
             frame_command common [Embed v] =
               Return (<["embed" := VBool b]> defaults) ∧
             frame_command common [Explicit v] =
               Return (<["explicit" := VBool b]> defaults) ∧
             frame_command common [OmitDefault v] =
               Return (<["omitDefault" := VBool b]> defaults)
         | Throw e =>
             e = new_Error ("Invalid boolean:" +:+ v) ∧
             frame_command common [Embed v] = Throw e ∧
             frame_command common [Explicit v] = Throw e ∧
             frame_command common [OmitDefault v] = Throw e
         | Exit _ => False
         end).
Proof.
  split; [done|]. split; [|split].
  - intros s. unfold boolify.
    destruct (String.eqb_spec s "") as [->|Hs]; [reflexivity|].
    cbn [negb]. cbv zeta.
    rewrite !toLowerCase_matches by reflexivity.
    unfold one_of, existsb. by rewrite !orb_false_r, <- !orb_assoc.
  - by repeat split.
  - intros common. eexists. split; [reflexivity|].
    split; [|split; [|split]].
    + rewrite get_insert_ne by done. rewrite get_insert_ne by done.
      apply get_insert_eq.
    + rewrite get_insert_ne by done. apply get_insert_eq.
    + apply get_insert_eq.
    + intros v. unfold frame_command. cbn [set_frame_options set_frame].
      destruct (boolify_string v) as [[b Hb]|Hb]; rewrite Hb; by repeat split.
Qed.

(** What [_jsonLdOptions] adds after the allow-list leaves [allow] alone. *)
Lemma jsonLdOptions_allow (command : gmap string value) (input : string) :
  ∃ options,
    _jsonLdOptions command input =
      (if truthy (get command "allow") then
         match get command "allow" with
         | VStr list => Return options
         | _ => Throw (TypeError "command.allow.split is not a function")
         end
       else Return options) ∧
    get options "allow" =
      (if truthy (get command "allow") then
         match get command "allow" with
         | VStr list => allow_of list
         | _ => VUndefined
         end
       else VUndefined) ∧
    get options "access" =
      (if truthy (get command "allow") then VUndefined else ALLOW_DEFAULT).
Proof.
  unfold _jsonLdOptions.
  destruct (truthy (get command "allow")) eqn:Ha.
  - destruct (get command "allow") as [| | | |list| | |] eqn:Hv;
      try (by exists ∅).
    cbv zeta. rewrite get_insert_eq, !includes_strings. unfold allow_of.
    destruct (mem "all" _); [|destruct (mem "none" _)];
      (eexists; split; [reflexivity|]);
      destruct (truthy (get command "lint")), (truthy (get command "safe"));
      by rewrite !get_insert_ne, ?get_insert_eq by done.
  - eexists; split; [reflexivity|].
    destruct (truthy (get command "lint")), (truthy (get command "safe"));
      by rewrite !get_insert_ne, ?get_insert_eq by done.
Qed.

Lemma append_cons (c : ascii) (a b : string) :
  String c a +:+ b = String c (a +:+ b).
Proof. reflexivity. Qed.

Lemma append_nil_l (a : string) : "" +:+ a = a.
Proof. reflexivity. Qed.

Lemma split_cons (sep : ascii) (s : string) :
  ∃ w ws, Str.split sep s = w :: ws.
Proof.
  destruct s as [|c r]; simpl; [by eexists _, _|].
  destruct (Ascii.eqb c sep); [by eexists _, _|].
  destruct (Str.split sep r); by eexists _, _.
Qed.

(** Joining the pieces of a split with the separator gives the string
    back. *)
Lemma concat_split (sep : ascii) (s : string) :
  String.concat (String sep "") (Str.split sep s) = s.
Proof.
  induction s as [|c r IH]; [done|].
  simpl Str.split. destruct (split_cons sep r) as (w & ws & Hr).
  rewrite Hr in *. destruct (Ascii.eqb_spec c sep) as [->|Hne].
  - change (String.concat (String sep "") ("" :: w :: ws))
      with ("" +:+ String sep "" +:+ String.concat (String sep "") (w :: ws)).
    by rewrite IH.
  - destruct ws as [|w' ws].
    + simpl in *. by rewrite IH.
    + change (String.concat (String sep "") (String c w :: w' :: ws))
        with (String c w +:+ String sep ""
                +:+ String.concat (String sep "") (w' :: ws)).
      rewrite append_cons. f_equal. exact IH.
Qed.

(** No piece of a split holds the separator. *)
Lemma split_no_sep (sep : ascii) (s : string) :
  Forall (fun t => has_char sep t = false) (Str.split sep s).
Proof.
  induction s as [|c r IH]; simpl.
  - constructor; [done|constructor].
  - destruct (Ascii.eqb c sep) eqn:Hc.
    + constructor; [done|exact IH].
    + destruct (Str.split sep r) as [|w ws].
      * constructor; [|constructor]. simpl. by rewrite Hc.
      * inversion IH as [|? ? Hw Hws]; subst.
        constructor; [|done]. simpl. by rewrite Hc, Hw.
Qed.

(** C9, as amended.  For every non-empty value of [-a/--allow] the value is
    split on commas: the tokens are the pieces between the commas (joined by
    commas they give the value back, and none holds a comma).  If ['all'] is
    among the tokens the allow-list is ['stdin', 'file', 'http', 'https'],
    also when ['none'] is among them; otherwise if ['none'] is among them it
    is the empty list; otherwise it is the list of the tokens as they
    are. *)
Theorem allow_list_of_value (command : gmap string value)
    (input list : string) :
  get command "allow" = VStr list → list ≠ "" →
  ∃ options tokens,
    _jsonLdOptions command input = Return options ∧
    String.concat "," tokens = list ∧
    Forall (fun t => has_char "," t = false) tokens ∧
    tokens ≠ [] ∧
    get options "allow" =
      (if decide ("all" ∈ tokens)
       then VArr [VStr "stdin"; VStr "file"; VStr "http"; VStr "https"]
       else if decide ("none" ∈ tokens) then VArr []
       else VArr (VStr <$> tokens)).
Proof.
  intros Hv Hne.
  destruct (jsonLdOptions_allow command input) as (options & Ho & Hallow & _).
  assert (Ht : truthy (get command "allow") = true).
  { rewrite Hv. simpl. by destruct (String.eqb_spec list ""). }
  rewrite Ht, Hv in Ho, Hallow.
  exists options, (Str.split "," list).
  split; [done|]. split; [apply concat_split|]. split; [apply split_no_sep|].
  split; [by destruct (split_cons "," list) as (w & ws & ->)|].
  rewrite Hallow. unfold allow_of.
  destruct (mem "all" (Str.split "," list)) eqn:Hall.
  - apply mem_elem_of in Hall. by rewrite decide_True.
  - rewrite decide_False by (intros H; apply mem_elem_of in H; congruence).
    destruct (mem "none" (Str.split "," list)) eqn:Hnone.
    + apply mem_elem_of in Hnone. by rewrite decide_True.
    + by rewrite decide_False
        by (intros H; apply mem_elem_of in H; congruence).
Qed.

(** No option but [-a/--allow] is stored under [allow]. *)
Lemma no_allow (given : list common_option) :
  existsb (fun o => match o with Allow _ => true | _ => false end) given
    = false →
  _jsonLdCommand given !! "allow" = None.
Proof.
  unfold _jsonLdCommand.
  assert (H : ∀ cmd : gmap string value,
             cmd !! "allow" = None →
             existsb (fun o => match o with Allow _ => true | _ => false end)
                     given = false →
             foldl set_common cmd given !! "allow" = None).
  { induction given as [|o given IH]; intros cmd Hcmd Hgiven; [done|].
    simpl in *. apply orb_false_elim in Hgiven as [Ho Hgiven].
    apply IH; [|done]. destruct o; simpl; try done;
      by rewrite lookup_insert_ne. }
  apply H. by rewrite !lookup_insert_ne.
Qed.

(** Whatever else is given, without [-a/--allow] the options object has the
    default list under [access] and nothing under [allow]. *)
Lemma allow_undefined_without_option (given : list common_option)
    (input : string) :
  existsb (fun o => match o with Allow _ => true | _ => false end) given
    = false →
  ∃ options,
    _jsonLdOptions (_jsonLdCommand given) input = Return options ∧
    get options "access" = ALLOW_DEFAULT ∧
    get options "allow" = VUndefined.
Proof.
  intros Hgiven.
  destruct (jsonLdOptions_allow (_jsonLdCommand given) input)
    as (options & Ho & Hallow & Haccess).
  assert (Ha : get (_jsonLdCommand given) "allow" = VUndefined).
  { unfold get. by rewrite (no_allow given Hgiven). }
  rewrite Ha in Ho, Hallow, Haccess. by exists options.
Qed.

(** C1, on the code.  When [-a/--allow] is not given, [_jsonLdOptions] stores
    the default list ['http', 'https'] under [access], and [allow], which is
    what the wrapper reads, stays undefined: the second request of the
    invocation is issued with [allow] undefined, not with the default list. *)
Theorem default_allow_not_passed (input url1 url2 : string)
    (req1 req2 : gmap string value) :
  ∃ options,
    _jsonLdOptions (_jsonLdCommand []) input = Return options ∧
    get options "access" = ALLOW_DEFAULT ∧
    get options "allow" = VUndefined ∧
    issued (after_requests options [(url1, req1); (url2, req2)] initial) =
      [(url1, <["allow" := ALLOW_ALL]> req1);
       (url2, <["allow" := VUndefined]> req2)].
Proof.
  destruct (jsonLdOptions_allow (_jsonLdCommand []) input)
    as (options & Ho & Hallow & Haccess).
  change (truthy (get (_jsonLdCommand []) "allow")) with false
    in Ho, Hallow, Haccess.
  exists options. repeat split; try done.
  unfold after_requests, initial, _jsonldRequest. simpl. by rewrite Hallow.
Qed.

(** No option of [_jsonLdCommand] is stored under [sourceBase]. *)
Lemma no_sourceBase (given : list common_option) :
  _jsonLdCommand given !! "sourceBase" = None.
Proof.
  unfold _jsonLdCommand.
  assert (H : ∀ cmd : gmap string value,
             cmd !! "sourceBase" = None →
             foldl set_common cmd given !! "sourceBase" = None).
  { induction given as [|o given IH]; intros cmd Hcmd; [done|].
    simpl. apply IH. destruct o; simpl; by rewrite lookup_insert_ne. }
  apply H. by rewrite !lookup_insert_ne.
Qed.

(** C8, on the code.  [_getBase] reads [command.sourceBase], which no option
    sets ([-B/--auto-base] is stored under [autoBase]): without [-b] the base
    is [null] whether or not [-B] is given.  With [-B] and input ['-'] the
    base is [null], where [_getSourceBase] would give ['stdin://']. *)
Theorem auto_base_not_read (given : list common_option) (input : string) :
  _getBase (_jsonLdCommand given) input =
    (if truthy (get (_jsonLdCommand given) "base")
     then get (_jsonLdCommand given) "base" else VNull)
  ∧ get (_jsonLdCommand [AutoBase]) "autoBase" = VBool true
  ∧ _getBase (_jsonLdCommand [AutoBase]) "-" = VNull
  ∧ _getSourceBase (_jsonLdCommand [AutoBase]) "-" = VStr "stdin://".
Proof.
  assert (H : ∀ g, get (_jsonLdCommand g) "sourceBase" = VUndefined).
  { intros g. unfold get. by rewrite no_sourceBase. }
  unfold _getBase. rewrite !H. simpl.
  by repeat split.
Qed.

Lemma put_chunks_app (l1 l2 : list string) (w : world) :
  put_chunks l2 (put_chunks l1 w) = put_chunks (l1 ++ l2) w.
Proof. unfold put_chunks. simpl. by rewrite <- app_assoc. Qed.

Lemma put_chunk_chunks (s : string) (l : list string) (w : world) :
  put_chunks l (put_chunk s w) = put_chunks (s :: l) w.
Proof. unfold put_chunks, put_chunk. simpl. by rewrite <- app_assoc. Qed.

Lemma put_chunks_nil (w : world) : put_chunks [] w = w.
Proof. destruct w. unfold put_chunks. simpl. by rewrite app_nil_r. Qed.

(** [_error] on an error: the report, then [process.exit(1)]. *)
Lemma error_report (e : thrown) :
  ∀ (label : string) (w : world),
    thrown_truthy e = true →
    _error e label w = (put_chunks (report label e) w, Exit 1).
Proof.
  induction e as [p|str stack props cause IH]; intros label w He.
  - simpl in *. rewrite He. reflexivity.
  - simpl.
    assert (Hhead :
      (match stack with
       | Some s => if negb (String.eqb s "") then console_log [s]
                   else console_log [str]
       | None => console_log [str]
       end) w = (put_chunk (headline (TObj str stack props cause) +:+ Str.LF)
                           w, Return tt)).
    { destruct stack as [s|]; simpl; [|done].
      by destruct (String.eqb s ""). }
    unfold mbind, M_bind at 1. unfold mbind, M_bind at 1.
    unfold mbind, M_bind at 1. rewrite Hhead.
    destruct props as [|kv props]; simpl.
    + destruct (thrown_truthy cause) eqn:Hc.
      * rewrite IH by done. by rewrite put_chunk_chunks.
      * reflexivity.
    + destruct (thrown_truthy cause) eqn:Hc.
      * rewrite IH by done. unfold console_log. simpl.
        by rewrite put_chunk_chunks, put_chunk_chunks.
      * unfold console_log, put_chunk. simpl. by rewrite put_chunks_app.
Qed.

(** A falsy value is no error for [_error]: nothing is printed and the
    process goes on. *)
Lemma error_falsy (e : thrown) (label : string) (w : world) :
  thrown_truthy e = false → _error e label w = (w, Return tt).
Proof. intros He. destruct e; simpl in *; [by rewrite He|done]. Qed.

Lemma main_throw (action : M unit) (w w' : world) (e : thrown) :
  action w = (w', Throw e) → thrown_truthy e = true →
  main action w = (put_chunks (report "Error:" e) w', Exit 1).
Proof.
  intros Ha He. unfold main, catch. rewrite Ha. by apply error_report.
Qed.

Lemma main_return (action : M unit) (w w' : world) :
  action w = (w', Return tt) → main action w = (w', Return tt).
Proof. intros Ha. unfold main, catch. by rewrite Ha. Qed.

(** C5. An error raised by the action (a thrown value that [_error] takes for
    an error, that is a truthy one) is reported on standard output: its stack
    trace if it has one, else its string form, then its own enumerable
    properties, then the same for each error down the cause chain; the
    process then ends with exit code 1.  The action runs once: nothing is
    retried.  An action that returns leaves the exit code 0. *)
Theorem errors_reported_exit_1 :
  (∀ e label w, thrown_truthy e = true →
     _error e label w = (put_chunks (report label e) w, Exit 1)) ∧
  (∀ action w w' e,
     action w = (w', Throw e) → thrown_truthy e = true →
     main action w = (put_chunks (report "Error:" e) w', Exit 1) ∧
     exit_status (main action w) = 1) ∧
  (∀ action w w',
     action w = (w', Return tt) →
     main action w = (w', Return tt) ∧ exit_status (main action w) = 0).
Proof.
  split; [|split].
  - intros e label w He. by apply error_report.
  - intros action w w' e Ha He.
    by rewrite (main_throw action w w' e Ha He).
  - intros action w w' Ha. by rewrite (main_return action w w' Ha).
Qed.

(** C4. [compact] without a context and [frame] without a frame raise their
    error before anything else happens: nothing has been written and no
    request has been made when the error is thrown.  The top level prints
    the stack of the error, which starts with its message, and the process
    ends with exit code 1. *)
Theorem missing_context_or_frame :
  (∀ input cmd w,
     truthy (get cmd "context") = false →
     compact input cmd w =
       (w, Throw (new_Error "ERROR: Context not specified, use -c/--context"))
     ∧ main (compact input cmd) w =
         (put_chunk
            (("Error: ERROR: Context not specified, use -c/--context"
              +:+ stack_frames) +:+ Str.LF) w, Exit 1)
     ∧ exit_status (main (compact input cmd) w) = 1) ∧
  (∀ input cmd w,
     truthy (get cmd "frame") = false →
     frame input cmd w =
       (w, Throw (new_Error "ERROR: Frame not specified, use -f/--frame"))
     ∧ main (frame input cmd) w =
         (put_chunk
            (("Error: ERROR: Frame not specified, use -f/--frame"
              +:+ stack_frames) +:+ Str.LF) w, Exit 1)
     ∧ exit_status (main (frame input cmd) w) = 1).
Proof.
  split; intros input cmd w Hc.
  - assert (H : compact input cmd w =
      (w, Throw (new_Error "ERROR: Context not specified, use -c/--context"))).
    { unfold compact. by rewrite Hc. }
    split; [done|].
    by rewrite (main_throw _ _ _ _ H eq_refl).
  - assert (H : frame input cmd w =
      (w, Throw (new_Error "ERROR: Frame not specified, use -f/--frame"))).
    { unfold frame. by rewrite Hc. }
    split; [done|].
    by rewrite (main_throw _ _ _ _ H eq_refl).
Qed.

Lemma serialize_object (gap indent : string) (data : value) :
  is_object data = true →
  ∃ text, JSON.serialize number_text gap indent data = Some text.
Proof. destruct data; try done; simpl; eauto. Qed.

(** What the common output function writes for an object. *)
Lemma output_object (data : value) (cmd : gmap string value) (w : world) :
  is_object data = true →
  ∃ text,
    JSON.stringify number_text data (get cmd "indent") = Some text ∧
    _output data cmd w =
      (put_chunks (text :: trailing_newline cmd) w, Return tt).
Proof.
  intros Hobj. unfold JSON.stringify.
  destruct (serialize_object (JSON.gap_of (get cmd "indent")) "" data Hobj)
    as [text Ht].
  exists text. split; [done|].
  unfold _output, JSON.stringify. rewrite Hobj, Ht.
  unfold trailing_newline, mbind, M_bind. simpl.
  destruct (truthy (get cmd "newline")); simpl;
    unfold put_chunk; by rewrite ?put_chunks_app.
Qed.

(** The wrapper reads nothing of [options] but [allow]. *)
Lemma jsonldRequest_allow (url : string)
    (req options options' : gmap string value) :
  get options "allow" = get options' "allow" →
  _jsonldRequest url req options = _jsonldRequest url req options'.
Proof. intros H. unfold _jsonldRequest. by rewrite H. Qed.

Lemma json_not_nquads (l : string) :
  mem l json_aliases = true → mem l nquads_aliases = false.
Proof.
  unfold mem. intros H. apply existsb_exists in H as (x & Hx & Heq).
  apply String.eqb_eq in Heq as ->.
  simpl in Hx. by repeat (destruct Hx as [<-|Hx]; [done|]).
Qed.

(** The [format] entry of the options of [format], before the switch. *)
Lemma format_entry (cmd o : gmap string value) :
  let o1 := <["format" := if truthy (get cmd "format") then get cmd "format"
                          else VStr "json"]> o in
  let o2 := if truthy (get cmd "nQuads")
            then <["format" := VStr "application/n-quads"]> o1 else o1 in
  let o3 := if truthy (get cmd "json")
            then <["format" := VStr "application/json"]> o2 else o2 in
  let o4 := if truthy (get cmd "context")
            then <["expandContext" := get cmd "context"]> o3 else o3 in
  get o4 "format" = selected_format cmd ∧ get o4 "allow" = get o "allow".
Proof.
  unfold selected_format.
  destruct (truthy (get cmd "json")), (truthy (get cmd "nQuads")),
    (truthy (get cmd "format")), (truthy (get cmd "context")); cbv zeta;
    split; by rewrite ?get_insert_ne, ?get_insert_eq by done.
Qed.

(** What the common output function does is what [written] says. *)
Lemma output_is_written (data : value) (cmd : gmap string value) (w : world) :
  _output data cmd w = written data cmd w.
Proof.
  destruct data as [| |b|n|s|items|props|name]; try reflexivity.
  - destruct (output_object VNull cmd w eq_refl) as (text & Ht & Ho).
    rewrite Ho. unfold written. by rewrite Ht.
  - unfold _output, written, trailing_newline, mbind, M_bind. simpl.
    destruct (truthy (get cmd "newline")); simpl;
      unfold put_chunk; by rewrite ?put_chunks_app.
  - destruct (output_object (VArr items) cmd w eq_refl) as (text & Ht & Ho).
    rewrite Ho. unfold written. by rewrite Ht.
  - destruct (output_object (VObj props) cmd w eq_refl) as (text & Ht & Ho).
    rewrite Ho. unfold written. by rewrite Ht.
Qed.

Lemma bind_written (call : M value) (cmd : gmap string value) (w : world) :
  (result ← call; _output result cmd) w = then_written call cmd w.
Proof.
  unfold mbind, M_bind, then_written.
  destruct (call w) as [w' [result|e|c]]; [|done|done].
  apply output_is_written.
Qed.

Lemma append_assoc (a b c : string) : (a +:+ b) +:+ c = a +:+ b +:+ c.
Proof.
  induction a as [|x a IH]; [done|]. rewrite !append_cons. by rewrite IH.
Qed.

Lemma append_nil_r (a : string) : a +:+ "" = a.
Proof.
  induction a as [|x a IH]; [done|]. rewrite append_cons. by rewrite IH.
Qed.

Lemma append_length (a b : string) :
  String.length (a +:+ b) = (String.length a + String.length b)%nat.
Proof.
  induction a as [|x a IH]; [done|]. rewrite append_cons. simpl. by rewrite IH.
Qed.

Lemma drop_prefix_Some (p s r : string) :
  Str.drop_prefix p s = Some r ↔ s = p +:+ r.
Proof.
  revert s. induction p as [|a p IH]; intros s.
  - simpl. rewrite append_nil_l. split; [by intros [= ->]|by intros ->].
  - rewrite append_cons. destruct s as [|b s]; simpl; [done|].
    destruct (Ascii.eqb_spec a b) as [->|Hne].
    + rewrite IH. split; [by intros ->|by intros [= ->]].
    + split; [done|]. intros [= <- _]. done.
Qed.

Lemma drop_one_Some (ps : list string) (s r : string) :
  Str.drop_one ps s = Some r → ∃ p, p ∈ ps ∧ s = p +:+ r.
Proof.
  induction ps as [|p ps IH]; [done|]. simpl.
  destruct (Str.drop_prefix p s) as [r'|] eqn:Hp.
  - intros [= ->]. exists p. split; [apply list_elem_of_here|].
    by apply drop_prefix_Some.
  - intros Hr. destruct (IH Hr) as (q & Hq & Hs). exists q.
    split; [by apply list_elem_of_further|done].
Qed.

Lemma drop_one_None (ps : list string) (s : string) :
  Str.drop_one ps s = None → ∀ p u, p ∈ ps → s ≠ p +:+ u.
Proof.
  induction ps as [|q ps IH]; intros Hnone p u Hp.
  - by apply elem_of_nil in Hp.
  - simpl in Hnone. destruct (Str.drop_prefix q s) as [r|] eqn:Hq; [done|].
    apply elem_of_cons in Hp as [->|Hp]; [|by apply IH].
    intros Hs. apply drop_prefix_Some in Hs. congruence.
Qed.

(** No white space code point has an empty encoding. *)
Lemma white_space_length (p : string) :
  p ∈ Str.white_space → (1 <= String.length p)%nat.
Proof.
  assert (H : Forall (fun p => (1 <= String.length p)%nat) Str.white_space)
    by (vm_compute; repeat constructor).
  rewrite Forall_forall in H. apply H.
Qed.

Lemma trimStart_from_S (fuel : nat) (s : string) :
  Str.trimStart_from (S fuel) s =
    match Str.drop_one Str.white_space s with
    | Some r => Str.trimStart_from fuel r
    | None => s
    end.
Proof. reflexivity. Qed.

Lemma trimStart_from_spec (fuel : nat) :
  ∀ s, (String.length s <= fuel)%nat →
    ∃ l, s = l +:+ Str.trimStart_from fuel s ∧ white l ∧
         ∀ p u, p ∈ Str.white_space → Str.trimStart_from fuel s ≠ p +:+ u.
Proof.
  induction fuel as [|fuel IH]; intros s Hlen.
  - destruct s; [|simpl in Hlen; lia].
    exists "". split; [done|]. split; [constructor|].
    intros p u Hp Hs. apply white_space_length in Hp.
    apply (f_equal String.length) in Hs. rewrite append_length in Hs.
    simpl in Hs. lia.
  - rewrite trimStart_from_S.
    destruct (Str.drop_one Str.white_space s) as [r|] eqn:Hd.
    + destruct (drop_one_Some _ _ _ Hd) as (p & Hp & ->).
      pose proof (white_space_length p Hp) as Hp1.
      rewrite append_length in Hlen.
      destruct (IH r ltac:(lia)) as (l & Hl & Hwhite & Hno).
      exists (p +:+ l). split; [rewrite append_assoc; by f_equal|].
      split; [by constructor|done].
    + exists "". split; [done|]. split; [constructor|].
      by apply drop_one_None.
Qed.

Lemma trimEnd_cons (c : ascii) (s : string) :
  Str.trimEnd (String c s) =
    if mem (String c (Str.trimEnd s)) Str.white_space then ""
    else String c (Str.trimEnd s).
Proof. reflexivity. Qed.

Lemma trimEnd_spec (s : string) :
  ∃ r, s = Str.trimEnd s +:+ r ∧ white r ∧
       ∀ p u, p ∈ Str.white_space → Str.trimEnd s ≠ u +:+ p.
Proof.
  assert (Hnil : ∀ p u, p ∈ Str.white_space → "" ≠ u +:+ p).
  { intros p u Hp Hs. apply white_space_length in Hp.
    apply (f_equal String.length) in Hs. rewrite append_length in Hs.
    simpl in Hs. lia. }
  induction s as [|c s (r & Hr & Hwhite & Hno)].
  - exists "". split; [done|]. split; [constructor|]. apply Hnil.
  - rewrite trimEnd_cons.
    destruct (mem (String c (Str.trimEnd s)) Str.white_space) eqn:Hm.
    + exists (String c (Str.trimEnd s) +:+ r).
      split; [by rewrite append_cons, <- Hr|].
      split; [constructor; [by apply mem_elem_of|done]|]. apply Hnil.
    + exists r. split; [by rewrite append_cons, <- Hr|]. split; [done|].
      intros p u Hp Hs. destruct u as [|c' u].
      * rewrite append_nil_l in Hs. subst p.
        apply mem_elem_of in Hp. congruence.
      * rewrite append_cons in Hs. injection Hs as _ Hs.
        by apply (Hno p u Hp).
Qed.

(** [trim] removes the white space at both ends and nothing else. *)
Lemma trim_trimmed (s : string) : trimmed_of s (Str.trim s).
Proof.
  unfold trimmed_of, Str.trim, Str.trimStart.
  destruct (trimStart_from_spec (String.length s) s (le_n _))
    as (l & Hl & Hlwhite & Hstart).
  destruct (trimEnd_spec (Str.trimStart_from (String.length s) s))
    as (r & Hr & Hrwhite & Hend).
  exists l, r. split; [by rewrite <- Hr|]. split; [done|]. split; [done|].
  intros p u Hp. split; [|by apply Hend].
  intros Ht. apply (Hstart p (u +:+ r) Hp).
  by rewrite Hr at 1; rewrite Ht, append_assoc.
Qed.

(** The three ways of [format], on the lower case of the format. *)
Lemma format_cases (input : option string) (cmd base : gmap string value)
    (f : string) :
  _jsonLdOptions cmd (input_or_stdin input) = Return base →
  selected_format cmd = VStr f →
  (mem (Str.toLowerCase f) nquads_aliases = true →
   ∃ options,
     get options "format" = VStr "application/n-quads" ∧
     get options "allow" = get base "allow" ∧
     format input cmd =
       (result ← jsonld_toRDF (documentLoader cmd options)
                   (input_or_stdin input) options;
        _output result cmd)) ∧
  (mem (Str.toLowerCase f) json_aliases = true →
   format input cmd =
     (reqResult ← _jsonldRequest (input_or_stdin input)
                    (_requestOptions cmd (input_or_stdin input)) base;
      _output (get reqResult "data") cmd)) ∧
  (mem (Str.toLowerCase f) nquads_aliases = false →
   mem (Str.toLowerCase f) json_aliases = false →
   format input cmd = throw (new_Error ("ERROR: Unknown format: " +:+ f))).
Proof.
  intros Hbase Hsel.
  destruct (format_entry cmd base) as [Hfmt Hallow]. cbv zeta in Hfmt, Hallow.
  rewrite Hsel in Hfmt.
  split; [|split].
  - intros Hn. eexists. split; [|split]; cycle 2.
    + unfold format. rewrite Hbase. unfold mbind at 1, M_bind at 1, lift.
      cbv zeta. rewrite Hfmt, Hn. reflexivity.
    + apply get_insert_eq.
    + rewrite get_insert_ne by done. apply Hallow.
  - intros Hj. pose proof (json_not_nquads _ Hj) as Hn.
    unfold format. rewrite Hbase. unfold mbind at 1, M_bind at 1, lift.
    cbv zeta. rewrite Hfmt, Hn, Hj.
    by rewrite (jsonldRequest_allow _ _ _ base Hallow).
  - intros Hn Hj.
    unfold format. rewrite Hbase. unfold mbind at 1, M_bind at 1, lift.
    cbv zeta. by rewrite Hfmt, Hn, Hj.
Qed.

(** The aliases as the source lists them, matched up to case. *)
Lemma aliases_up_to_case (f : string) :
  mem (Str.toLowerCase f) nquads_aliases =
    one_of ["nquads"; "n-quads"; "application/nquads"; "application/n-quads"]
           f ∧
  mem (Str.toLowerCase f) json_aliases =
    one_of ["json"; "jsonld"; "json-ld"; "ld+json"; "application/json";
            "application/ld+json"] f.
Proof. split; by apply one_of_lower. Qed.

(** C6, as amended.  The format [format] selects is [-j]'s, else [-q]'s,
    else [-f]'s, else ['json'], and is compared whatever the case of its
    letters.  An N-Quads alias: the [format] option becomes
    ['application/n-quads'] and the result written is the one of
    [jsonld.toRDF].  A JSON alias: the input is fetched through the request
    wrapper and the document fetched is written: as JSON text when it is an
    object, an array or [null], as it is, without the white space around it,
    when it is a string.  Anything else: the error ['ERROR: Unknown
    format: '] followed by the format is raised, and the process ends with
    exit code 1. *)
Theorem format_dispatch (input : option string)
    (cmd base : gmap string value) (f : string) :
  _jsonLdOptions cmd (input_or_stdin input) = Return base →
  selected_format cmd = VStr f →
  (one_of ["nquads"; "n-quads"; "application/nquads"; "application/n-quads"]
          f = true →
   ∃ options,
     get options "format" = VStr "application/n-quads" ∧
     get options "allow" = get base "allow" ∧
     ∀ w,
       format input cmd w =
         then_written
           (jsonld_toRDF (documentLoader cmd options) (input_or_stdin input)
              options) cmd w) ∧
  (one_of ["json"; "jsonld"; "json-ld"; "ld+json"; "application/json";
           "application/ld+json"] f = true →
   ∀ w,
     format input cmd w =
       then_written
         (response ← _jsonldRequest (input_or_stdin input)
                       (_requestOptions cmd (input_or_stdin input)) base;
          mret (get response "data")) cmd w) ∧
  (one_of ["nquads"; "n-quads"; "application/nquads"; "application/n-quads"]
          f = false →
   one_of ["json"; "jsonld"; "json-ld"; "ld+json"; "application/json";
           "application/ld+json"] f = false →
   ∀ w,
     format input cmd w =
       (w, Throw (new_Error ("ERROR: Unknown format: " +:+ f))) ∧
     main (format input cmd) w =
       (put_chunk
          (("Error: ERROR: Unknown format: " +:+ f +:+ stack_frames)
           +:+ Str.LF) w, Exit 1) ∧
     exit_status (main (format input cmd) w) = 1) ∧
  (∀ document w,
     written document cmd w =
       match document with
       | VNull | VArr _ | VObj _ =>
           (put_chunks
              (default "" (JSON.stringify number_text document
                             (get cmd "indent"))
                 :: trailing_newline cmd) w, Return tt)
       | VStr s =>
           (put_chunks (Str.trim s :: trailing_newline cmd) w, Return tt)
       | _ => (w, Throw (write_error document))
       end).
Proof.
  intros Hbase Hsel.
  destruct (format_cases input cmd base f Hbase Hsel) as (Hn & Hj & Hu).
  destruct (aliases_up_to_case f) as [<- <-].
  split; [|split; [|split]].
  - intros Hq. destruct (Hn Hq) as (options & Hf & Ha & Heq).
    exists options. split; [done|]. split; [done|].
    intros w. rewrite Heq. apply bind_written.
  - intros Hq w. rewrite (Hj Hq).
    unfold then_written, mbind, M_bind.
    destruct (_jsonldRequest _ _ _ w) as [w' [response|e|c]]; [|done|done].
    apply output_is_written.
  - intros H1 H2 w.
    assert (H : format input cmd w =
              (w, Throw (new_Error ("ERROR: Unknown format: " +:+ f)))).
    { by rewrite (Hu H1 H2). }
    split; [done|].
    by rewrite (main_throw _ _ _ _ H eq_refl).
  - done.
Qed.

(** [newline] is true unless [-N] is among the options given. *)
Lemma newline_given (given : list common_option) :
  trailing_newline (_jsonLdCommand given) =
    if existsb (fun o => match o with NoNewline => true | _ => false end) given
    then [] else [Str.LF].
Proof.
  unfold trailing_newline, _jsonLdCommand.
  assert (H : ∀ cmd : gmap string value,
    get (foldl set_common cmd given) "newline" =
      if existsb (fun o => match o with NoNewline => true | _ => false end)
                 given
      then VBool false else get cmd "newline").
  { induction given as [|o given IH]; intros cmd; [done|].
    simpl. rewrite IH.
    destruct o; simpl; rewrite ?get_insert_ne, ?get_insert_eq by done;
      try done.
    by destruct (existsb _ given). }
  rewrite H, get_insert_ne, get_insert_eq by done.
  by destruct (existsb _ given).
Qed.

(** The gap of a finite indentation of at least 1: its whole part, at
    most 10. *)
Lemma gap_whole_part (num : Z) (den : positive) (k : Z) :
  1 ≤ k → k * Z.pos den ≤ num < (k + 1) * Z.pos den →
  JSON.gap_of (VNum (Finite num den)) = Str.spaces (Z.to_nat (Z.min 10 k)).
Proof.
  intros Hk Hnum. unfold JSON.gap_of, JSON.ToIntegerOrInfinity, int.
  replace (num ÷ Z.pos den) with k; [done|].
  apply (Z.quot_unique num (Z.pos den) k (num - Z.pos den * k)); lia.
Qed.

(** Below 1 there is no gap. *)
Lemma gap_below_one (num : Z) (den : positive) :
  num < Z.pos den → JSON.gap_of (VNum (Finite num den)) = "".
Proof.
  intros Hnum. unfold JSON.gap_of, JSON.ToIntegerOrInfinity, int.
  assert (Hq : num ÷ Z.pos den ≤ 0).
  { destruct (Z.le_gt_cases 0 num) as [Hpos|Hneg].
    - rewrite Z.quot_small by lia. done.
    - pose proof (Z.quot_opp_l num (Z.pos den) ltac:(lia)) as Hopp.
      pose proof (Z.quot_pos (- num) (Z.pos den) ltac:(lia) ltac:(lia)).
      lia. }
  replace (Z.to_nat (Z.min 10 (num ÷ Z.pos den))) with 0%nat by lia.
  done.
Qed.

(** Every command but [lint] ends with its result written. *)
Lemma commands_written (input : option string) (cmd base : gmap string value) :
  _jsonLdOptions cmd (input_or_stdin input) = Return base →
  (∃ options,
     get options "allow" = get base "allow" ∧
     ∀ w,
       expand input cmd w =
         then_written
           (jsonld_expand (documentLoader cmd options) (input_or_stdin input)
              options) cmd w) ∧
  (∀ w,
     flatten input cmd w =
       then_written
         (jsonld_flatten (documentLoader cmd base) (input_or_stdin input)
            (get cmd "context") base) cmd w) ∧
  (∃ options,
     get options "allow" = get base "allow" ∧
     ∀ w,
       toRdf input cmd w =
         then_written
           (jsonld_toRDF (documentLoader cmd options) (input_or_stdin input)
              options) cmd w) ∧
  (∃ options,
     get options "allow" = get base "allow" ∧
     ∀ w,
       canonize input cmd w =
         then_written
           (jsonld_canonize (documentLoader cmd options)
              (input_or_stdin input) options) cmd w) ∧
  (truthy (get cmd "context") = true →
   ∃ options,
     get options "allow" = get base "allow" ∧
     ∀ w,
       compact input cmd w =
         then_written
           (jsonld_compact (documentLoader cmd options) (input_or_stdin input)
              (get cmd "context") options) cmd w) ∧
  (truthy (get cmd "frame") = true →
   ∃ options,
     get options "allow" = get base "allow" ∧
     ∀ w,
       frame input cmd w =
         then_written
           (jsonld_frame (documentLoader cmd options) (input_or_stdin input)
              (get cmd "frame") options) cmd w).
Proof.
  intros Hbase.
  split; [|split; [|split; [|split; [|split]]]].
  - eexists. split; cycle 1.
    + intros w. unfold expand. rewrite Hbase.
      unfold mbind at 1, M_bind at 1, lift. apply bind_written.
    + destruct (truthy (get cmd "context"));
        by rewrite ?get_insert_ne by done.
  - intros w. unfold flatten. rewrite Hbase.
    unfold mbind at 1, M_bind at 1, lift. apply bind_written.
  - eexists. split; cycle 1.
    + intros w. unfold toRdf. rewrite Hbase.
      unfold mbind at 1, M_bind at 1, lift. apply bind_written.
    + destruct (truthy (get cmd "format")), (truthy (get cmd "nQuads")),
        (truthy (get cmd "generalizedRdf"));
        by rewrite ?get_insert_ne by done.
  - eexists. split; cycle 1.
    + intros w. unfold canonize. rewrite Hbase.
      unfold mbind at 1, M_bind at 1, lift. apply bind_written.
    + destruct (truthy (get cmd "format")), (truthy (get cmd "nQuads"));
        by rewrite ?get_insert_ne by done.
  - intros Hctx. eexists. split; cycle 1.
    + intros w. unfold compact. rewrite Hctx, Hbase.
      unfold mbind at 1, M_bind at 1, lift. apply bind_written.
    + by rewrite !get_insert_ne by done.
  - intros Hframe. eexists. split; cycle 1.
    + intros w. unfold frame. rewrite Hframe, Hbase.
      unfold mbind at 1, M_bind at 1, lift. apply bind_written.
    + by rewrite !get_insert_ne by done.
Qed.

(** C7, as amended.  Every command but [lint] ends with its result written
    by the common output function.  An object result is written as JSON
    text, each level of nesting indented by as many spaces as the whole part
    of the number given by [-i/--indent], by 10 spaces when that is above 10,
    and by none, the text then being one line, when the number is below 1 or
    is not a number; the default is 2.  A string result is written without
    its leading and trailing white space.  One newline follows, unless
    [-N/--no-newline] is given, and then nothing follows. *)
Theorem output_written (cmd : gmap string value) :
  (∀ data w, _output data cmd w = written data cmd w) ∧
  (∀ data num den k,
     get cmd "indent" = VNum (Finite num den) →
     1 ≤ k → k * Z.pos den ≤ num < (k + 1) * Z.pos den →
     JSON.stringify number_text data (get cmd "indent") =
       json_indented (Z.to_nat (Z.min 10 k)) data) ∧
  (∀ data n,
     get cmd "indent" = VNum n →
     (n = NaN ∨ n = Infinity true ∨
      ∃ num den, n = Finite num den ∧ num < Z.pos den) →
     JSON.stringify number_text data (get cmd "indent") =
       json_indented 0 data) ∧
  (∀ data,
     get cmd "indent" = VNum (Infinity false) →
     JSON.stringify number_text data (get cmd "indent") =
       json_indented 10 data) ∧
  (json_indented 2
     (VObj [("a", VArr [VStr "x"; VNull; VBool true]); ("b", VObj [])]) =
     Some ("{" +:+ Str.LF
           +:+ "  " +:+ Str.dquote +:+ "a" +:+ Str.dquote +:+ ": [" +:+ Str.LF
           +:+ "    " +:+ Str.dquote +:+ "x" +:+ Str.dquote +:+ "," +:+ Str.LF
           +:+ "    null," +:+ Str.LF
           +:+ "    true" +:+ Str.LF
           +:+ "  ]," +:+ Str.LF
           +:+ "  " +:+ Str.dquote +:+ "b" +:+ Str.dquote +:+ ": {}" +:+ Str.LF
           +:+ "}") ∧
   json_indented 0
     (VObj [("a", VArr [VStr "x"; VNull; VBool true]); ("b", VObj [])]) =
     Some ("{" +:+ Str.dquote +:+ "a" +:+ Str.dquote +:+ ":["
           +:+ Str.dquote +:+ "x" +:+ Str.dquote +:+ ",null,true],"
           +:+ Str.dquote +:+ "b" +:+ Str.dquote +:+ ":{}}")) ∧
  (∀ s, trimmed_of s (Str.trim s)) ∧
  (Str.trim (Str.bytes [32; 9; 194; 160; 226; 128; 168; 10]%nat
             +:+ "_:a <urn:p> _:b ."
             +:+ Str.bytes [13; 10; 239; 187; 191; 227; 128; 128; 32]%nat) =
     "_:a <urn:p> _:b ." ∧
   Str.trim (Str.bytes [32; 10]%nat) = "") ∧
  (get (_jsonLdCommand []) "indent" = VNum (int 2) ∧
   ∀ given,
     trailing_newline (_jsonLdCommand given) =
       if existsb (fun o => match o with NoNewline => true | _ => false end)
                  given
       then [] else [Str.LF]) ∧
  (∀ input base,
     _jsonLdOptions cmd (input_or_stdin input) = Return base →
     (∃ options, ∀ w,
        expand input cmd w =
          then_written
            (jsonld_expand (documentLoader cmd options)
               (input_or_stdin input) options) cmd w) ∧
     (∀ w,
        flatten input cmd w =
          then_written
            (jsonld_flatten (documentLoader cmd base) (input_or_stdin input)
               (get cmd "context") base) cmd w) ∧
     (∃ options, ∀ w,
        toRdf input cmd w =
          then_written
            (jsonld_toRDF (documentLoader cmd options) (input_or_stdin input)
               options) cmd w) ∧
     (∃ options, ∀ w,
        canonize input cmd w =
          then_written
            (jsonld_canonize (documentLoader cmd options)
               (input_or_stdin input) options) cmd w) ∧
     (truthy (get cmd "context") = true →
      ∃ options, ∀ w,
        compact input cmd w =
          then_written
            (jsonld_compact (documentLoader cmd options)
               (input_or_stdin input) (get cmd "context") options) cmd w) ∧
     (truthy (get cmd "frame") = true →
      ∃ options, ∀ w,
        frame input cmd w =
          then_written
            (jsonld_frame (documentLoader cmd options) (input_or_stdin input)
               (get cmd "frame") options) cmd w) ∧
     (∀ f,
        selected_format cmd = VStr f →
        (one_of ["nquads"; "n-quads"; "application/nquads";
                 "application/n-quads"] f = true →
         ∃ options, ∀ w,
           format input cmd w =
             then_written
               (jsonld_toRDF (documentLoader cmd options)
                  (input_or_stdin input) options) cmd w) ∧
        (one_of ["json"; "jsonld"; "json-ld"; "ld+json"; "application/json";
                 "application/ld+json"] f = true →
         ∀ w,
           format input cmd w =
             then_written
               (response ← _jsonldRequest (input_or_stdin input)
                             (_requestOptions cmd (input_or_stdin input))
                             base;
                mret (get response "data")) cmd w))).
Proof.
  split; [intros data w; apply output_is_written|].
  split.
  { intros data num den k Hn Hk Hnum. rewrite Hn.
    unfold JSON.stringify, json_indented.
    by rewrite (gap_whole_part num den k Hk Hnum). }
  split.
  { intros data n Hn Hcases. rewrite Hn. unfold JSON.stringify, json_indented.
    destruct Hcases as [->|[->|(num & den & -> & Hlt)]]; try done.
    by rewrite (gap_below_one num den Hlt). }
  split.
  { intros data Hn. by rewrite Hn. }
  split; [by split|].
  split; [apply trim_trimmed|].
  split; [split; by vm_compute|].
  split; [split; [done|apply newline_given]|].
  intros input base Hbase.
  destruct (commands_written input cmd base Hbase)
    as ((o1 & _ & H1) & H2 & (o3 & _ & H3) & (o4 & _ & H4) & H5 & H6).
  split; [by exists o1|]. split; [done|]. split; [by exists o3|].
  split; [by exists o4|].
  split; [intros Hc; destruct (H5 Hc) as (o5 & _ & ?); by exists o5|].
  split; [intros Hf; destruct (H6 Hf) as (o6 & _ & ?); by exists o6|].
  intros f Hsel.
  destruct (format_cases input cmd base f Hbase Hsel) as (Hn & Hj & _).
  destruct (aliases_up_to_case f) as [<- <-].
  split.
  - intros Hq. destruct (Hn Hq) as (options & _ & _ & Heq).
    exists options. intros w. rewrite Heq. apply bind_written.
  - intros Hq w. rewrite (Hj Hq).
    unfold then_written, mbind, M_bind.
    destruct (_jsonldRequest _ _ _ w) as [w' [response|e|c]]; [|done|done].
    apply output_is_written.
Qed.

(** The value a command line leaves under a property: the last option
    that writes it decides. *)
Lemma foldl_last_given {O : Type}
    (set : gmap string value → O → gmap string value)
    (sel : O → option string) (k : string) :
  (∀ cmd o, get (set cmd o) k =
            match sel o with Some v => VStr v | None => get cmd k end) →
  ∀ given cmd,
    get (foldl set cmd given) k =
      match last_given sel given with
      | Some v => VStr v
      | None => get cmd k
      end.
Proof.
  intros Hset. unfold last_given.
  induction given as [|o given IH]; intros cmd; [done|].
  cbn [foldl]. rewrite IH, Hset.
  change (omap sel (o :: given))
    with (match sel o with
          | Some y => y :: omap sel given
          | None => omap sel given
          end).
  destruct (sel o) as [v|]; [|done].
  destruct (omap sel given) as [|v' l] eqn:Hl; [done|].
  change (last (v :: v' :: l)) with (last (v' :: l)).
  by destruct (last (v' :: l)) eqn:Hlast;
    [|apply last_None in Hlast].
Qed.

Lemma foldl_flag {O : Type}
    (set : gmap string value → O → gmap string value)
    (test : O → bool) (k : string) (v : value) :
  (∀ cmd o, get (set cmd o) k = if test o then v else get cmd k) →
  ∀ given cmd,
    get (foldl set cmd given) k =
      if existsb test given then v else get cmd k.
Proof.
  intros Hset. induction given as [|o given IH]; intros cmd; [done|].
  simpl. rewrite IH, Hset. by destruct (test o), (existsb test given).
Qed.

Lemma foldl_other {O : Type}
    (set : gmap string value → O → gmap string value) (k : string) :
  (∀ cmd o, get (set cmd o) k = get cmd k) →
  ∀ given cmd, get (foldl set cmd given) k = get cmd k.
Proof.
  intros Hset. induction given as [|o given IH]; intros cmd; [done|].
  simpl. by rewrite IH, Hset.
Qed.

(** The common options leave alone what they do not name. *)
Lemma jsonLdCommand_other (common : list common_option) (k : string) :
  k ∉ ["indent"; "newline"; "insecure"; "allow"; "type"; "autoBase"; "base";
       "lint"; "safe"] →
  get (_jsonLdCommand common) k = VUndefined.
Proof.
  intros Hk.
  assert (Hne : k ≠ "indent" ∧ k ≠ "newline" ∧ k ≠ "insecure" ∧ k ≠ "allow" ∧
                k ≠ "type" ∧ k ≠ "autoBase" ∧ k ≠ "base" ∧ k ≠ "lint" ∧
                k ≠ "safe").
  { repeat (apply not_elem_of_cons in Hk as [? Hk]). done. }
  destruct Hne as (?&?&?&?&?&?&?&?&?).
  unfold _jsonLdCommand. rewrite foldl_other.
  - by rewrite !get_insert_ne by done.
  - intros cmd o. destruct o; simpl; by rewrite get_insert_ne by done.
Qed.

Lemma jsonLdCommand_base (common : list common_option) :
  get (_jsonLdCommand common) "base" =
    match last_given base_given common with
    | Some b => VStr b
    | None => VUndefined
    end.
Proof.
  unfold _jsonLdCommand.
  rewrite (foldl_last_given set_common base_given "base").
  - by destruct (last_given base_given common).
  - intros cmd o.
    destruct o; simpl; by rewrite ?get_insert_eq, ?get_insert_ne by done.
Qed.

Lemma jsonLdCommand_safe (common : list common_option) :
  get (_jsonLdCommand common) "safe" =
    if existsb is_safe common then VBool true else VUndefined.
Proof.
  unfold _jsonLdCommand.
  rewrite (foldl_flag set_common is_safe "safe" (VBool true)); [done|].
  intros cmd o.
  destruct o; simpl; by rewrite ?get_insert_eq, ?get_insert_ne by done.
Qed.

(** The base of a command line is the last non-empty [-b], or [null]. *)
Lemma getBase_command_line (common : list common_option)
    (cmd : gmap string value) (input : string) :
  get cmd "base" = get (_jsonLdCommand common) "base" →
  get cmd "sourceBase" = VUndefined →
  _getBase cmd input = base_of_command_line common.
Proof.
  intros Hb Hs. unfold _getBase, base_of_command_line.
  rewrite Hs, Hb, jsonLdCommand_base.
  destruct (last_given base_given common) as [b|]; [|done].
  simpl. by destruct (String.eqb b "").
Qed.

(** What the options of [compact] leave under each property. *)
Lemma compact_command_entries (common : list common_option)
    (given : list compact_option) :
  get (compact_command common given) "context" =
    match last_given context_given given with
    | Some c => VStr c
    | None => VUndefined
    end ∧
  get (compact_command common given) "compactArrays" =
    VBool (negb (existsb is_no_compact_arrays given)) ∧
  get (compact_command common given) "graph" =
    (if existsb is_graph given then VBool true else VUndefined) ∧
  ∀ k, k ≠ "context" → k ≠ "compactArrays" → k ≠ "graph" →
       get (compact_command common given) k = get (_jsonLdCommand common) k.
Proof.
  unfold compact_command. split; [|split; [|split]].
  - rewrite (foldl_last_given set_compact context_given "context").
    + destruct (last_given context_given given); [done|].
      rewrite get_insert_ne by done. apply jsonLdCommand_other.
      repeat (apply not_elem_of_cons; split; [done|]). apply not_elem_of_nil.
    + intros cmd o.
      destruct o; simpl; by rewrite ?get_insert_eq, ?get_insert_ne by done.
  - rewrite (foldl_flag set_compact is_no_compact_arrays "compactArrays"
               (VBool false)).
    + rewrite get_insert_eq. by destruct (existsb _ given).
    + intros cmd o.
      destruct o; simpl; by rewrite ?get_insert_eq, ?get_insert_ne by done.
  - rewrite (foldl_flag set_compact is_graph "graph" (VBool true)).
    + destruct (existsb _ given); [done|].
      rewrite get_insert_ne by done. apply jsonLdCommand_other.
      repeat (apply not_elem_of_cons; split; [done|]). apply not_elem_of_nil.
    + intros cmd o.
      destruct o; simpl; by rewrite ?get_insert_eq, ?get_insert_ne by done.
  - intros k H1 H2 H3. rewrite foldl_other.
    + by rewrite get_insert_ne.
    + intros cmd o. destruct o; simpl; by rewrite get_insert_ne.
Qed.

(** Commander stores a string under [allow], or nothing. *)
Lemma command_line_allow (given : list common_option) :
  get (_jsonLdCommand given) "allow" = VUndefined ∨
  ∃ list, get (_jsonLdCommand given) "allow" = VStr list.
Proof.
  unfold _jsonLdCommand.
  assert (H : ∀ cmd : gmap string value,
    (get cmd "allow" = VUndefined ∨ ∃ list, get cmd "allow" = VStr list) →
    get (foldl set_common cmd given) "allow" = VUndefined ∨
    ∃ list, get (foldl set_common cmd given) "allow" = VStr list).
  { induction given as [|o given IH]; intros cmd Hcmd; [done|].
    simpl. apply IH.
    destruct o; simpl; rewrite ?get_insert_ne by done; try done.
    right. eexists. apply get_insert_eq. }
  apply H. left. by rewrite !get_insert_ne.
Qed.

(** The options object of a command whose [allow] is the one of a command
    line is built. *)
Lemma options_of_command_line (common : list common_option)
    (cmd : gmap string value) (input : string) :
  get cmd "allow" = get (_jsonLdCommand common) "allow" →
  ∃ base, _jsonLdOptions cmd input = Return base.
Proof.
  intros Ha.
  destruct (jsonLdOptions_allow cmd input) as (options & Ho & _).
  exists options. rewrite Ho, Ha.
  destruct (command_line_allow common) as [->|[list ->]]; [done|].
  by destruct (truthy (VStr list)).
Qed.

(** What [_jsonLdOptions] leaves after the allow-list. *)
Lemma jsonLdOptions_shape (command : gmap string value) (input : string)
    (options : gmap string value) :
  _jsonLdOptions command input = Return options →
  ∃ o0 : gmap string value,
    options =
      <["documentLoader" := VFun "documentLoader"]>
        (<["base" := _getBase command input]>
           (if truthy (get command "safe") then
              <["safe" := VBool true]>
                (if truthy (get command "lint") then
                   <["eventHandler" := VFun "_warningHandler"]> o0 else o0)
            else
              if truthy (get command "lint") then
                <["eventHandler" := VFun "_warningHandler"]> o0 else o0)) ∧
    ((∃ allow, o0 = {[ "allow" := allow ]} ∧
               truthy (get command "allow") = true) ∨
     (o0 = {[ "access" := ALLOW_DEFAULT ]} ∧
      truthy (get command "allow") = false)).
Proof.
  unfold _jsonLdOptions. intros Hbase.
  destruct (truthy (get command "allow")).
  - destruct (get command "allow"); try discriminate Hbase.
    cbv zeta in Hbase.
    destruct (includes _ "all"); [|destruct (includes _ "none")];
      simpl in Hbase; injection Hbase as <-;
      eexists; (split; [reflexivity|]); left; eexists; split; try done;
      by rewrite ?insert_insert_eq, ?insert_empty.
  - simpl in Hbase. injection Hbase as <-.
    eexists; (split; [reflexivity|]). right. by rewrite insert_empty.
Qed.


(** ** More properties of the program *)

Lemma prefix_append (p s : string) :
  String.prefix p s = true ↔ ∃ rest, s = p +:+ rest.
Proof.
  revert s. induction p as [|a p IH]; intros s.
  - split; [intros _; by exists s|by destruct s].
  - destruct s as [|b s]; simpl.
    + split; [done|]. by intros [rest Hrest].
    + destruct (ascii_dec a b) as [->|Hne].
      * rewrite IH. split; intros [rest Hrest]; exists rest.
        -- by rewrite Hrest.
        -- by injection Hrest.
      * split; [done|]. intros [rest Hrest]. injection Hrest as Hab _.
        congruence.
Qed.

(** X1. [_isHTTP] holds exactly of the locations that start with ['http://']
    or with ['https://'], in these very letters. *)
Theorem isHTTP_prefix (url : string) :
  _isHTTP url = true ↔
  ∃ rest, url = "http://" +:+ rest ∨ url = "https://" +:+ rest.
Proof.
  unfold _isHTTP, Str.startsWith. rewrite orb_true_iff, !prefix_append.
  split.
  - intros [[rest H]|[rest H]]; exists rest; [by left|by right].
  - intros [rest [H|H]]; [left|right]; by exists rest.
Qed.

(** X2. The source base is always a string with one of four schemes.  It is
    ['stdin://'] exactly when the input is ['-'], it is the input itself when
    the input is an HTTP or HTTPS location, and it starts with ['file://']
    for every other input. *)
Theorem source_base_scheme (command : gmap string value) (input : string) :
  ∃ base,
    _getSourceBase command input = VStr base ∧
    (base = "stdin://" ↔ input = "-") ∧
    (_isHTTP input = true → base = input) ∧
    (input ≠ "-" → _isHTTP input = false →
     base = "file://" +:+ path_resolve cwd input) ∧
    Str.startsWith "stdin://" base || _isHTTP base
      || Str.startsWith "file://" base = true.
Proof.
  unfold _getSourceBase.
  destruct (String.eqb_spec input "-") as [->|Hne].
  - exists "stdin://". by repeat split.
  - destruct (_isHTTP input) eqn:Hhttp.
    + exists input. repeat split; try done.
      * intros ->. by vm_compute in Hhttp.
      * by rewrite Hhttp, orb_true_r.
    + eexists. repeat split; try done.
      apply orb_true_iff. right. apply prefix_append. by eexists.
Qed.

(** X3. The request options hold the base, an agent that accepts any
    certificate exactly when [command.insecure] is truthy, the data type
    exactly when [command.type] is truthy, and nothing else: in particular
    no allow-list.  On a command line [insecure] is truthy exactly when
    [-k/--insecure] is given, and [type] exactly when the last [-t/--type]
    has a value that is not empty. *)
Theorem request_options_keys (command : gmap string value) (input k : string) :
  _requestOptions command input !! "base" = Some (_getBase command input) ∧
  _requestOptions command input !! "agent" =
    (if truthy (get command "insecure")
     then Some (VObj [("rejectUnauthorized", VBool false)]) else None) ∧
  _requestOptions command input !! "dataType" =
    (if truthy (get command "type") then Some (get command "type")
     else None) ∧
  (k ≠ "base" → k ≠ "agent" → k ≠ "dataType" →
   _requestOptions command input !! k = None) ∧
  _requestOptions command input !! "allow" = None ∧
  (∀ given,
     truthy (get (_jsonLdCommand given) "insecure") =
       existsb is_insecure given ∧
     truthy (get (_jsonLdCommand given) "type") =
       match last_given type_given given with
       | Some t => negb (String.eqb t "")
       | None => false
       end ∧
     _requestOptions (_jsonLdCommand given) input !! "dataType" =
       match last_given type_given given with
       | Some t => if String.eqb t "" then None else Some (VStr t)
       | None => None
       end).
Proof.
  split; [|split; [|split; [|split; [|split]]]].
  1-5: unfold _requestOptions;
    destruct (truthy (get command "insecure")), (truthy (get command "type"));
    intros;
    by rewrite ?lookup_insert_eq, ?lookup_insert_ne, ?lookup_empty by done.
  intros given.
  assert (Hi : get (_jsonLdCommand given) "insecure" =
               if existsb is_insecure given then VBool true else VUndefined).
  { unfold _jsonLdCommand.
    rewrite (foldl_flag set_common is_insecure "insecure" (VBool true));
      [done|].
    intros cmd o.
    destruct o; simpl; by rewrite ?get_insert_eq, ?get_insert_ne by done. }
  assert (Ht : get (_jsonLdCommand given) "type" =
               match last_given type_given given with
               | Some t => VStr t
               | None => VUndefined
               end).
  { unfold _jsonLdCommand.
    rewrite (foldl_last_given set_common type_given "type").
    - by destruct (last_given type_given given).
    - intros cmd o.
      destruct o; simpl; by rewrite ?get_insert_eq, ?get_insert_ne by done. }
  split; [|split].
  - rewrite Hi. by destruct (existsb is_insecure given).
  - rewrite Ht. by destruct (last_given type_given given).
  - unfold _requestOptions. rewrite Ht, Hi.
    destruct (last_given type_given given) as [t|],
      (existsb is_insecure given); simpl;
      try destruct (String.eqb t "");
      by rewrite ?lookup_insert_eq, ?lookup_insert_ne, ?lookup_empty by done.
Qed.

(** X4. Whatever request options the caller passes, the wrapper hands the
    library a copy in which [allow] is set by the wrapper itself (a value of
    the caller is replaced) and every other entry is the caller's.  The
    result is the library's, and [_primary] is false afterwards also when
    the request fails. *)
Theorem wrapper_sets_allow (url : string)
    (reqOptions options : gmap string value) (w : world) :
  ∃ sent,
    issued (_jsonldRequest url reqOptions options w).1 =
      issued w ++ [(url, sent)] ∧
    (_jsonldRequest url reqOptions options w).2 = jsonldRequest url sent ∧
    sent !! "allow" =
      Some (if _primary w then ALLOW_ALL else get options "allow") ∧
    (∀ k, k ≠ "allow" → sent !! k = reqOptions !! k) ∧
    _primary (_jsonldRequest url reqOptions options w).1 = false ∧
    stdout (_jsonldRequest url reqOptions options w).1 = stdout w.
Proof.
  unfold _jsonldRequest. simpl.
  destruct (_primary w); eexists; repeat split;
    try (by rewrite lookup_insert_eq);
    by intros; rewrite lookup_insert_ne.
Qed.

(** X5. One call of the document loader makes one request, for the location
    asked, with the request options of the command line.  When the request
    succeeds the answer names that same location as [documentUrl], has no
    [contextUrl], and its [document] is the data of the response, or [null]
    when the data is missing or falsy.  When the request fails the loader
    fails in the same way. *)
Theorem document_loader_result (command options : gmap string value)
    (url : string) (w : world) :
  ∃ sent,
    sent = <["allow" := if _primary w then ALLOW_ALL
                        else get options "allow"]>
             (_requestOptions command url) ∧
    issued (documentLoader command options url w).1 =
      issued w ++ [(url, sent)] ∧
    match jsonldRequest url sent with
    | Return response =>
        ∃ document,
          (documentLoader command options url w).2 =
            Return (VObj [("contextUrl", VNull); ("documentUrl", VStr url);
                          ("document", document)]) ∧
          (if truthy (get response "data")
           then document = get response "data" else document = VNull)
    | Throw e => (documentLoader command options url w).2 = Throw e
    | Exit c => (documentLoader command options url w).2 = Exit c
    end.
Proof.
  eexists. split; [reflexivity|].
  unfold documentLoader, mbind, M_bind, _jsonldRequest. simpl.
  destruct (_primary w);
    (destruct (jsonldRequest url _) as [response|e|c]; simpl;
     [|done|done]; split; [done|]; eexists; split; [reflexivity|];
     by destruct (truthy (get response "data"))).
Qed.

(** X6. Initialising the options fails in one case only: an [allow] that is
    truthy and not a string, which has no [split]; the error is then a
    [TypeError].  No command line leads there: for every list of common
    options the options object is built. *)
Theorem options_built_for_command_lines (command : gmap string value)
    (given : list common_option) (input : string) :
  ((∃ options, _jsonLdOptions command input = Return options) ∨
   _jsonLdOptions command input =
     Throw (TypeError "command.allow.split is not a function")) ∧
  ((∃ options, _jsonLdOptions command input = Return options) ↔
   (truthy (get command "allow") = false ∨
    ∃ list, get command "allow" = VStr list)) ∧
  ∃ options, _jsonLdOptions (_jsonLdCommand given) input = Return options.
Proof.
  assert (Hiff : ∀ c,
    (∃ options, _jsonLdOptions c input = Return options) ↔
    (truthy (get c "allow") = false ∨ ∃ list, get c "allow" = VStr list)).
  { intros c.
    destruct (jsonLdOptions_allow c input) as (options & Ho & _).
    destruct (truthy (get c "allow")) eqn:Ht.
    - destruct (get c "allow") eqn:Hv;
        try (split; [intros [o Hr]; congruence|];
             intros [?|[list ?]]; congruence).
      split; [right; by eexists|by exists options].
    - split; [by left|by exists options]. }
  split; [|split; [apply Hiff|]].
  - destruct (jsonLdOptions_allow command input) as (options & Ho & _).
    destruct (truthy (get command "allow")).
    + destruct (get command "allow"); try (by right). left. by exists options.
    + left. by exists options.
  - apply Hiff. destruct (command_line_allow given) as [H|[list H]].
    + left. by rewrite H.
    + right. by exists list.
Qed.

(** X7. The options object always has [base] and [documentLoader]; it has
    [safe] (true) exactly with [-s] and the warning handler exactly with
    [-l]; it has either [allow] or [access], never both, [access] being the
    default list; and it has no other entry. *)
Theorem options_entries (command : gmap string value) (input : string)
    (options : gmap string value) (k : string) :
  _jsonLdOptions command input = Return options →
  options !! "base" = Some (_getBase command input) ∧
  options !! "documentLoader" = Some (VFun "documentLoader") ∧
  options !! "safe" =
    (if truthy (get command "safe") then Some (VBool true) else None) ∧
  options !! "eventHandler" =
    (if truthy (get command "lint") then Some (VFun "_warningHandler")
     else None) ∧
  (if truthy (get command "allow")
   then is_Some (options !! "allow") ∧ options !! "access" = None
   else options !! "allow" = None ∧
        options !! "access" = Some ALLOW_DEFAULT) ∧
  (k ∉ ["base"; "documentLoader"; "safe"; "eventHandler"; "allow"; "access"]
   → options !! k = None).
Proof.
  intros Hbase.
  destruct (jsonLdOptions_shape _ _ _ Hbase) as (o0 & -> & Ho0).
  assert (Hk : k ∉ ["base"; "documentLoader"; "safe"; "eventHandler";
                    "allow"; "access"] →
               k ≠ "base" ∧ k ≠ "documentLoader" ∧ k ≠ "safe" ∧
               k ≠ "eventHandler" ∧ k ≠ "allow" ∧ k ≠ "access").
  { intros Hnot. repeat (apply not_elem_of_cons in Hnot as [? Hnot]).
    done. }
  destruct Ho0 as [(allow & -> & ->)|[-> ->]];
    destruct (truthy (get command "safe")), (truthy (get command "lint"));
    repeat split;
    try (intros Hnot; destruct (Hk Hnot) as (?&?&?&?&?&?));
    rewrite ?lookup_insert_ne, ?lookup_insert_eq, ?lookup_singleton_eq,
      ?lookup_singleton_ne, ?lookup_empty by done; try done; by eexists.
Qed.

(** X8. When the value of [-a/--allow] names neither ['all'] nor ['none'],
    the allow-list is made of the pieces between its commas, none of them
    dropped, trimmed or changed: joined by commas they give the value back,
    and no piece holds a comma. *)
Theorem allow_tokens_round_trip (command : gmap string value)
    (input list : string) (options : gmap string value) :
  get command "allow" = VStr list → list ≠ "" →
  mem "all" (Str.split "," list) = false →
  mem "none" (Str.split "," list) = false →
  _jsonLdOptions command input = Return options →
  ∃ tokens,
    get options "allow" = VArr (VStr <$> tokens) ∧
    String.concat "," tokens = list ∧
    Forall (fun t => has_char "," t = false) tokens ∧
    tokens ≠ [].
Proof.
  intros Hv Hne Hall Hnone Hopts.
  destruct (jsonLdOptions_allow command input) as (o & Ho & Hallow & _).
  assert (Ht : truthy (get command "allow") = true).
  { rewrite Hv. simpl. by destruct (String.eqb_spec list ""). }
  rewrite Ht, Hv in Ho, Hallow. rewrite Ho in Hopts. injection Hopts as <-.
  exists (Str.split "," list). split.
  - rewrite Hallow. unfold allow_of. by rewrite Hall, Hnone.
  - split; [apply concat_split|]. split; [apply split_no_sep|].
    by destruct (split_cons "," list) as (w & ws & ->).
Qed.

(** The options [_jsonLdOptions] builds have no [format] entry. *)
Lemma jsonLdOptions_no_format (command : gmap string value) (input : string)
    (options : gmap string value) :
  _jsonLdOptions command input = Return options →
  get options "format" = VUndefined.
Proof.
  intros Hbase.
  destruct (jsonLdOptions_shape _ _ _ Hbase) as (o0 & -> & Ho0).
  destruct Ho0 as [(allow & -> & _)|[-> _]];
    destruct (truthy (get command "safe")), (truthy (get command "lint"));
    rewrite ?get_insert_ne by done; unfold get;
    by rewrite lookup_singleton_ne.
Qed.

(** X9. In [toRdf] and [canonize] an explicit [-f/--format] wins over
    [-q/--n-quads]: the library gets the format of [-f] when it is given,
    ['application/n-quads'] when only [-q] is, and no format otherwise.  In
    [format] it is the other way round: with [-q] and without [-j] the
    result is the one of [jsonld.toRDF] in N-Quads, whatever [-f] says. *)
Theorem rdf_format_precedence (input : option string)
    (cmd base : gmap string value) :
  _jsonLdOptions cmd (input_or_stdin input) = Return base →
  (∃ options,
     get options "format" =
       (if truthy (get cmd "format") then get cmd "format"
        else if truthy (get cmd "nQuads") then VStr "application/n-quads"
        else VUndefined) ∧
     get options "allow" = get base "allow" ∧
     toRdf input cmd =
       (result ← jsonld_toRDF (documentLoader cmd options)
                   (input_or_stdin input) options;
        _output result cmd)) ∧
  (∃ options,
     get options "format" =
       (if truthy (get cmd "format") then get cmd "format"
        else if truthy (get cmd "nQuads") then VStr "application/n-quads"
        else VUndefined) ∧
     get options "allow" = get base "allow" ∧
     canonize input cmd =
       (result ← jsonld_canonize (documentLoader cmd options)
                   (input_or_stdin input) options;
        _output result cmd)) ∧
  (truthy (get cmd "nQuads") = true → truthy (get cmd "json") = false →
   ∃ options,
     get options "format" = VStr "application/n-quads" ∧
     get options "allow" = get base "allow" ∧
     format input cmd =
       (result ← jsonld_toRDF (documentLoader cmd options)
                   (input_or_stdin input) options;
        _output result cmd)).
Proof.
  intros Hbase. pose proof (jsonLdOptions_no_format _ _ _ Hbase) as Hnf.
  split; [|split].
  - eexists. split; [|split]; cycle 2.
    + unfold toRdf. rewrite Hbase. unfold mbind at 1, M_bind at 1, lift.
      reflexivity.
    + destruct (truthy (get cmd "format")), (truthy (get cmd "nQuads")),
        (truthy (get cmd "generalizedRdf"));
        by rewrite ?get_insert_ne, ?get_insert_eq by done.
    + destruct (truthy (get cmd "format")), (truthy (get cmd "nQuads")),
        (truthy (get cmd "generalizedRdf"));
        by rewrite ?get_insert_ne by done.
  - eexists. split; [|split]; cycle 2.
    + unfold canonize. rewrite Hbase. unfold mbind at 1, M_bind at 1, lift.
      reflexivity.
    + destruct (truthy (get cmd "format")), (truthy (get cmd "nQuads"));
        by rewrite ?get_insert_ne, ?get_insert_eq by done.
    + destruct (truthy (get cmd "format")), (truthy (get cmd "nQuads"));
        by rewrite ?get_insert_ne by done.
  - intros Hq Hj.
    assert (Hsel : selected_format cmd = VStr "application/n-quads").
    { unfold selected_format. by rewrite Hj, Hq. }
    destruct (format_cases input cmd base _ Hbase Hsel) as (Hn & _).
    by apply Hn.
Qed.

(** *** White space around a string *)

(** A property of every white space code point can be shown one code point
    at a time. *)
Lemma white_space_each (P : string → Prop) :
  Forall P ltac:(let l := eval vm_compute in Str.white_space in exact l) →
  ∀ p, p ∈ Str.white_space → P p.
Proof.
  intros H. change (Forall P Str.white_space) in H.
  rewrite Forall_forall in H. exact H.
Qed.

Ltac each_white_space :=
  match goal with
  | |- ∀ p, p ∈ Str.white_space → @?P p => apply (white_space_each P)
  end;
  repeat apply Forall_cons_2; [..|apply Forall_nil_2].

(** No encoding of a white space code point starts another one. *)
Lemma drop_one_white (p : string) :
  p ∈ Str.white_space →
  ∀ y, Str.drop_one Str.white_space (p +:+ y) = Some y.
Proof. revert p. each_white_space; intros y; reflexivity. Qed.

Lemma trimStart_from_enough (n : nat) :
  ∀ m s, (String.length s <= n)%nat → (String.length s <= m)%nat →
    Str.trimStart_from n s = Str.trimStart_from m s.
Proof.
  induction n as [|n IH]; intros m s Hn Hm.
  - destruct s; [|simpl in Hn; lia]. by destruct m.
  - destruct m as [|m].
    + destruct s; [|simpl in Hm; lia]. done.
    + rewrite !trimStart_from_S.
      destruct (Str.drop_one Str.white_space s) as [r|] eqn:Hd; [|done].
      destruct (drop_one_Some _ _ _ Hd) as (p & Hp & ->).
      apply white_space_length in Hp. rewrite append_length in Hn, Hm.
      apply IH; lia.
Qed.

Lemma trimStart_app_white (l x : string) :
  white l → Str.trimStart (l +:+ x) = Str.trimStart x.
Proof.
  induction 1 as [|p l Hp Hl IH]; [done|].
  rewrite append_assoc. unfold Str.trimStart at 1.
  pose proof (white_space_length p Hp) as Hlen.
  destruct (String.length (p +:+ l +:+ x)) as [|n] eqn:Hn.
  { rewrite append_length in Hn. lia. }
  rewrite trimStart_from_S, (drop_one_white p Hp).
  rewrite <- IH. unfold Str.trimStart.
  apply trimStart_from_enough; [|done].
  rewrite append_length in Hn. lia.
Qed.

Lemma trimStart_white (r : string) : white r → Str.trimStart r = "".
Proof.
  intros Hr. rewrite <- (append_nil_r r).
  by rewrite (trimStart_app_white r "" Hr).
Qed.

Lemma trimEnd_white (r : string) : white r → Str.trimEnd r = "".
Proof.
  induction 1 as [|p r Hp Hr IH]; [done|].
  revert p Hp. each_white_space;
    rewrite ?append_cons, append_nil_l, !trimEnd_cons, IH; reflexivity.
Qed.

Lemma trimEnd_app_white (x r : string) :
  white r → Str.trimEnd (x +:+ r) = Str.trimEnd x.
Proof.
  intros Hr. induction x as [|c x IH].
  - rewrite append_nil_l. by apply trimEnd_white.
  - rewrite append_cons, !trimEnd_cons. by rewrite IH.
Qed.

(** White space starts with the first byte of a white space code point. *)
Lemma white_lead (r : string) (c : ascii) (x : string) :
  white r → r = String c x →
  existsb (Ascii.eqb c)
    (List.map ascii_of_nat
       [9; 10; 11; 12; 13; 32; 194; 225; 226; 227; 239]%nat) = true.
Proof.
  intros Hr. destruct Hr as [|p r Hp Hr]; [done|].
  revert p Hp. each_white_space;
    rewrite ?append_cons; intros [= <- _]; reflexivity.
Qed.

Lemma drop_prefix_cons (a : ascii) (p : string) (c : ascii) (s : string) :
  Str.drop_prefix (String a p) (String c s) =
    if Ascii.eqb a c then Str.drop_prefix p s else None.
Proof. reflexivity. Qed.

Ltac walk_prefix Hr :=
  lazymatch goal with
  | Hnone : Str.drop_prefix EmptyString _ = None |- _ => discriminate Hnone
  | Hnone : Str.drop_prefix (String ?a _) ?t = None
    |- Str.drop_prefix _ (?t +:+ ?r) = None =>
      let c := fresh "c" in
      let x := fresh "x" in
      let Hl := fresh "Hl" in
      destruct t as [|c t];
      [ rewrite append_nil_l; destruct r as [|c x]; [reflexivity|];
        rewrite drop_prefix_cons;
        destruct (Ascii.eqb_spec a c) as [<-|_]; [|reflexivity];
        exfalso; pose proof (white_lead _ _ _ Hr eq_refl) as Hl;
        vm_compute in Hl; discriminate Hl
      | rewrite append_cons; rewrite drop_prefix_cons in Hnone |- *;
        destruct (Ascii.eqb a c); [walk_prefix Hr|reflexivity] ]
  end.

(** White space after a string that does not start with a white space code
    point does not make it start with one. *)
Lemma drop_prefix_app_white (p : string) :
  p ∈ Str.white_space →
  ∀ t r, t ≠ "" → Str.drop_prefix p t = None → white r →
         Str.drop_prefix p (t +:+ r) = None.
Proof.
  revert p. each_white_space; intros t r Ht Hnone Hr;
    (destruct t as [|c t]; [done|]);
    rewrite append_cons; rewrite drop_prefix_cons in Hnone |- *;
    (destruct (Ascii.eqb _ c); [walk_prefix Hr|reflexivity]).
Qed.

Lemma drop_one_none (ps : list string) (t : string) :
  (∀ p, p ∈ ps → Str.drop_prefix p t = None) → Str.drop_one ps t = None.
Proof.
  induction ps as [|q ps IH]; intros H; [done|]. simpl.
  rewrite (H q (list_elem_of_here _ _)). apply IH.
  intros p Hp. by apply H, list_elem_of_further.
Qed.

(** A string that does not start with white space is left as it is. *)
Lemma trimStart_fixed (t : string) :
  (∀ p, p ∈ Str.white_space → Str.drop_prefix p t = None) →
  Str.trimStart t = t.
Proof.
  intros H. unfold Str.trimStart. destruct (String.length t); [done|].
  by rewrite trimStart_from_S, (drop_one_none _ _ H).
Qed.

(** White space around a string does not change what [trim] gives. *)
Lemma trim_app_white (l s r : string) :
  white l → white r → Str.trim (l +:+ s +:+ r) = Str.trim s.
Proof.
  intros Hl Hr. unfold Str.trim. rewrite (trimStart_app_white l _ Hl).
  destruct (trimStart_from_spec (String.length s) s (le_n _))
    as (l' & Hs & Hl' & Hno).
  fold (Str.trimStart s) in Hs, Hno.
  rewrite Hs at 1. rewrite append_assoc, (trimStart_app_white l' _ Hl').
  destruct (Str.trimStart s) as [|c t] eqn:Ht.
  - rewrite append_nil_l. by rewrite (trimStart_white r Hr).
  - rewrite trimStart_fixed; [by apply trimEnd_app_white|].
    intros p Hp. apply drop_prefix_app_white; [done|done| |done].
    destruct (Str.drop_prefix p (String c t)) as [u|] eqn:Hu; [|done].
    apply drop_prefix_Some in Hu. by destruct (Hno p u Hp).
Qed.

(** X11. White space around a string result never reaches the output: a
    result with white space added before and after it, of any of the kinds
    [trim] knows, is written exactly as the result itself. *)
Theorem output_ignores_outer_space (l s r : string)
    (cmd : gmap string value) (w : world) :
  white l → white r →
  _output (VStr (l +:+ s +:+ r)) cmd w = _output (VStr s) cmd w ∧
  Forall white
    (Str.bytes <$>
       [[9]; [10]; [11]; [12]; [13]; [32]; [194; 160]; [225; 154; 128];
        [226; 128; 128]; [226; 128; 129]; [226; 128; 130]; [226; 128; 131];
        [226; 128; 132]; [226; 128; 133]; [226; 128; 134]; [226; 128; 135];
        [226; 128; 136]; [226; 128; 137]; [226; 128; 138]; [226; 128; 168];
        [226; 128; 169]; [226; 128; 175]; [226; 129; 159]; [227; 128; 128];
        [239; 187; 191]]%nat).
Proof.
  intros Hl Hr. split.
  - rewrite !output_is_written. unfold written.
    by rewrite (trim_app_white l s r Hl Hr).
  - repeat apply Forall_cons_2; [..|apply Forall_nil_2];
      match goal with
      | |- white ?p =>
          rewrite <- (append_nil_r p); apply white_cons; [|constructor];
          apply mem_elem_of; reflexivity
      end.
Qed.

(** X10. A result that is neither an object nor a string (undefined, a
    boolean, a number, a function) cannot be written: [_output] throws the
    error of [process.stdout.write] and writes nothing, not even the
    newline. *)
Theorem output_refuses_other_values (data : value)
    (cmd : gmap string value) (w : world) :
  is_object data = false → (∀ s, data ≠ VStr s) →
  _output data cmd w = (w, Throw (write_error data)).
Proof.
  intros Hobj Hstr. unfold _output. rewrite Hobj.
  destruct data; try done. by specialize (Hstr s).
Qed.

(** Induction on values that goes through arrays and objects. *)
Lemma value_nested_ind (P : value → Prop) :
  P VUndefined → P VNull → (∀ b, P (VBool b)) → (∀ n, P (VNum n)) →
  (∀ s, P (VStr s)) →
  (∀ items, Forall P items → P (VArr items)) →
  (∀ props, Forall (fun kv => P kv.2) props → P (VObj props)) →
  (∀ name, P (VFun name)) →
  ∀ v, P v.
Proof.
  intros Hu Hn Hb Hz Hs Ha Ho Hf. fix IH 1. intros v.
  destruct v as [| |b|n|s|items|props|name];
    [apply Hu|apply Hn|apply Hb|apply Hz|apply Hs| | |apply Hf].
  - apply Ha. revert items. fix IHitems 1. intros [|x items].
    + constructor.
    + constructor; [apply IH|apply IHitems].
  - apply Ho. revert props. fix IHprops 1. intros [|[k x] props].
    + constructor.
    + constructor; [apply IH|apply IHprops].
Qed.

Lemma no_control_app (a b : string) :
  no_control (a +:+ b) = no_control a && no_control b.
Proof.
  induction a as [|c a IH]; [done|].
  rewrite append_cons. simpl. by rewrite IH, andb_assoc.
Qed.

Lemma no_control_escape (s : string) : no_control (Str.escape s) = true.
Proof.
  induction s as [|c r IH]; [done|].
  simpl Str.escape. cbv zeta. rewrite no_control_app, IH, andb_true_r.
  destruct c as [[] [] [] [] [] [] [] []]; reflexivity.
Qed.

Lemma no_control_quote (s : string) : no_control (Str.quote s) = true.
Proof.
  unfold Str.quote. by rewrite !no_control_app, no_control_escape.
Qed.

Lemma no_control_concat (sep : string) (parts : list string) :
  no_control sep = true → Forall (fun p => no_control p = true) parts →
  no_control (String.concat sep parts) = true.
Proof.
  intros Hsep Hparts. induction Hparts as [|p parts Hp Hparts IH]; [done|].
  destruct parts as [|q parts]; [done|].
  change (String.concat sep (p :: q :: parts))
    with (p +:+ sep +:+ String.concat sep (q :: parts)).
  by rewrite !no_control_app, Hp, Hsep, IH.
Qed.

(** Without a gap the JSON text of any value is one line. *)
Lemma serialize_one_line (v : value) :
  (∀ n, no_control (number_text n) = true) →
  ∀ indent text,
    JSON.serialize number_text "" indent v = Some text →
    no_control text = true.
Proof.
  intros Hnum.
  induction v as [| |b|n|s|items IH|props IH|name] using value_nested_ind;
    intros indent text; simpl; try done.
  - by intros [= <-].
  - destruct b; by intros [= <-].
  - destruct n; intros [= <-]; [done|done|apply Hnum].
  - intros [= <-]. apply no_control_quote.
  - intros [= <-].
    match goal with |- context [JSON.wrap _ _ _ _ ?p] => set (parts := p) end.
    assert (Hparts : Forall (fun p => no_control p = true) parts).
    { subst parts. induction IH as [|x items Hx _ IHitems]; constructor.
      - destruct (JSON.serialize number_text "" (indent +:+ "") x) eqn:Hser;
          [|done].
        simpl. by apply (Hx _ _ Hser).
      - apply IHitems. }
    unfold JSON.wrap. destruct parts as [|p parts]; [done|].
    simpl String.eqb. cbv iota.
    by rewrite !no_control_app,
      (no_control_concat "," (p :: parts) eq_refl Hparts).
  - intros [= <-].
    match goal with |- context [JSON.wrap _ _ _ _ ?p] => set (parts := p) end.
    assert (Hparts : Forall (fun p => no_control p = true) parts).
    { subst parts. induction IH as [|[k x] props Hx _ IHprops];
        [constructor|].
      destruct (JSON.serialize number_text "" (indent +:+ "") x) eqn:Hser;
        [|apply IHprops].
      constructor; [|apply IHprops].
      unfold JSON.member. simpl String.eqb. cbv iota.
      rewrite !no_control_app, no_control_quote. simpl.
      by apply (Hx _ _ Hser). }
    unfold JSON.wrap. destruct parts as [|p parts]; [done|].
    simpl String.eqb. cbv iota.
    by rewrite !no_control_app,
      (no_control_concat "," (p :: parts) eq_refl Hparts).
Qed.

(** X12. With an indentation below 1, or one that is not a number, an
    object result is written as a single line: the text holds no character
    below U+0020, so no line feed and no carriage return, whatever strings
    the document holds.  The text the engine prints for a number is taken to
    hold none. *)
Theorem compact_json_one_line (data : value) (cmd : gmap string value)
    (n : number) (w : world) :
  (∀ x, no_control (number_text x) = true) →
  get cmd "indent" = VNum n →
  (n = NaN ∨ n = Infinity true ∨
   ∃ num den, n = Finite num den ∧ num < Z.pos den) →
  is_object data = true →
  ∃ text,
    _output data cmd w =
      (put_chunks (text :: trailing_newline cmd) w, Return tt) ∧
    no_control text = true.
Proof.
  intros Hnum Hn Hlt Hobj.
  destruct (output_object data cmd w Hobj) as (text & Ht & Ho).
  exists text. split; [done|].
  rewrite Hn in Ht. unfold JSON.stringify in Ht.
  assert (Hgap : JSON.gap_of (VNum n) = "").
  { destruct Hlt as [->|[->|(num & den & -> & Hlt)]]; try done.
    by apply gap_below_one. }
  rewrite Hgap in Ht.
  by apply (serialize_one_line data Hnum "" text).
Qed.

Lemma error_outcome (e : thrown) (label : string) (w : world) :
  ∃ lines,
    _error e label w = (put_chunks lines w, Return tt) ∨
    _error e label w = (put_chunks lines w, Exit 1).
Proof.
  destruct (thrown_truthy e) eqn:He.
  - exists (report label e). right. by apply error_report.
  - exists []. left. rewrite put_chunks_nil. by apply error_falsy.
Qed.

(** X13. The top level always settles: whatever the action does, [main]
    never ends with an error thrown.  Handling the error only appends lines
    to the standard output: it makes no request and leaves [_primary] alone.
    Unless the action itself ends the process, the exit status is 0 or 1. *)
Theorem main_always_settles (action : M unit) (w : world) :
  (∀ e, (main action w).2 ≠ Throw e) ∧
  issued (main action w).1 = issued (action w).1 ∧
  _primary (main action w).1 = _primary (action w).1 ∧
  (∃ lines, stdout (main action w).1 = stdout (action w).1 ++ lines) ∧
  ((∀ c, (action w).2 ≠ Exit c) →
   exit_status (main action w) = 0 ∨ exit_status (main action w) = 1).
Proof.
  unfold main, catch. destruct (action w) as [w' [[]|e|c]] eqn:Ha; simpl.
  - repeat split; try done.
    + exists []. by rewrite app_nil_r.
    + intros _. by left.
  - destruct (error_outcome e "Error:" w') as [lines [-> | ->]]; simpl.
    + repeat split; try done; [by exists lines|]. intros _. by left.
    + repeat split; try done; [by exists lines|]. intros _. by right.
  - repeat split; try done.
    + exists []. by rewrite app_nil_r.
    + intros H. by destruct (H c).
Qed.

(** X14. [_warningHandler] passes every event on: whatever the event, [next]
    runs, once, and the handler adds no failure of its own.  It prints two
    lines for an event whose level is ['warning'] and nothing for any other
    event. *)
Theorem warning_handler_passes_on (event : list (string * value))
    (next : M unit) (w : world) :
  ∃ lines,
    _warningHandler event next w = next (put_chunks lines w) ∧
    (is_warning (prop event "level") = false → lines = []) ∧
    (is_warning (prop event "level") = true →
     lines = [("WARNING: " +:+ to_text (prop event "message")) +:+ Str.LF;
              inspect event +:+ Str.LF]).
Proof.
  unfold _warningHandler. destruct (is_warning (prop event "level")).
  - exists [("WARNING: " +:+ to_text (prop event "message")) +:+ Str.LF;
            inspect event +:+ Str.LF].
    split; [|split; [discriminate|reflexivity]].
    unfold mbind, M_bind, console_log, put_chunk. simpl.
    by rewrite put_chunks_app.
  - exists []. split; [|done].
    unfold mbind, M_bind. simpl. by rewrite put_chunks_nil.
Qed.

(** X15. The version is read once: after a call of [toString] that found a
    version in [package.json], every later call answers with that version
    and does not depend on the file any more, be it changed or unreadable. *)
Theorem version_read_once (read1 read2 : outcome (gmap string value))
    (cached v : value) :
  version_toString VUndefined read1 = (cached, Return v) →
  v ≠ VUndefined →
  version_toString cached read2 = (cached, Return v).
Proof.
  unfold version_toString. destruct read1 as [pkg| |]; try done.
  intros [= <- <-] Hv. by destruct (get pkg "version").
Qed.

Lemma get_insert (o : gmap string value) (k j : string) (v : value) :
  get (<[k := v]> o) j = if decide (k = j) then v else get o j.
Proof. unfold get. rewrite lookup_insert. by case_decide. Qed.

(** Reading the options of [frame] one by one: the value left under a
    flag is what [boolify] made of the last argument given for it. *)
Lemma set_frame_options_key (k : string)
    (sel : frame_option → option string) :
  (∀ cmd o cmd', set_frame cmd o = Return cmd' →
     match sel o with
     | Some v => ∃ b, boolify (VStr v) = Return b ∧ get cmd' k = VBool b
     | None => get cmd' k = get cmd k
     end) →
  ∀ given cmd cmd',
    set_frame_options cmd given = Return cmd' →
    match last_given sel given with
    | Some v => ∃ b, boolify (VStr v) = Return b ∧ get cmd' k = VBool b
    | None => get cmd' k = get cmd k
    end.
Proof.
  intros Hset. unfold last_given.
  induction given as [|o given IH]; intros cmd cmd' Hrun.
  - by injection Hrun as ->.
  - cbn [set_frame_options] in Hrun.
    destruct (set_frame cmd o) as [cmd1|e|c] eqn:Ho; try done.
    cbn in Hrun. specialize (IH cmd1 cmd' Hrun). specialize (Hset _ _ _ Ho).
    change (omap sel (o :: given))
      with (match sel o with
            | Some y => y :: omap sel given
            | None => omap sel given
            end).
    destruct (sel o) as [v|].
    + destruct (omap sel given) as [|v' l] eqn:Hl.
      * simpl in *. destruct Hset as (b & Hb & Hk). exists b. by rewrite IH.
      * change (last (v :: v' :: l)) with (last (v' :: l)).
        by destruct (last (v' :: l)) eqn:Hlast;
          [|apply last_None in Hlast].
    + destruct (last (omap sel given)); [done|]. by rewrite IH.
Qed.

(** Reading the options of [frame] fails at the first argument [boolify]
    rejects, and succeeds when it accepts all of them. *)
Lemma set_frame_options_outcome (given : list frame_option) :
  ∀ cmd,
    match set_frame_options cmd given with
    | Return _ => Forall accepted (omap boolean_argument given)
    | Throw e =>
        ∃ before v after,
          omap boolean_argument given = before ++ v :: after ∧
          Forall accepted before ∧ boolify (VStr v) = Throw e
    | Exit _ => False
    end.
Proof.
  assert (Hone : ∀ cmd o,
    match boolean_argument o with
    | Some v =>
        match boolify (VStr v) with
        | Return b => ∃ cmd', set_frame cmd o = Return cmd'
        | Throw e => set_frame cmd o = Throw e
        | Exit _ => False
        end
    | None => ∃ cmd', set_frame cmd o = Return cmd'
    end).
  { intros cmd o.
    destruct o as [file|v|v|v]; cbn [boolean_argument set_frame];
      [by eexists|..];
      destruct (boolify_string v) as [[b ->]| ->]; cbn; by eauto. }
  induction given as [|o given IH]; intros cmd; [by constructor|].
  cbn [set_frame_options].
  change (omap boolean_argument (o :: given))
    with (match boolean_argument o with
          | Some y => y :: omap boolean_argument given
          | None => omap boolean_argument given
          end).
  specialize (Hone cmd o).
  destruct (boolean_argument o) as [v|].
  - destruct (boolify (VStr v)) as [b|e|c] eqn:Hb; [| |done].
    + destruct Hone as [cmd' ->]. cbn. specialize (IH cmd').
      destruct (set_frame_options cmd' given) as [cmd2|e|c]; [|  |done].
      * constructor; [by exists b|done].
      * destruct IH as (before & u & after & Heq & Hacc & Hu).
        exists (v :: before), u, after. rewrite Heq. split; [done|].
        split; [|done]. constructor; [by exists b|done].
    + rewrite Hone. cbn. exists [], v, (omap boolean_argument given).
      by repeat split.
  - destruct Hone as [cmd' ->]. cbn. apply IH.
Qed.

(** X16. The three flags of [frame]: each is what [boolify] made of the
    last argument given for it, and its default ([embed] true, the others
    false) when the option is not given.  A command line is accepted when
    [boolify] accepts every argument of these options; otherwise it is
    refused with the error [boolify] raises for the first argument it
    rejects, ['Invalid boolean:'] followed by that argument. *)
Theorem frame_flags_are_booleans (common : list common_option)
    (given : list frame_option) :
  match frame_command common given with
  | Return cmd =>
      match last_given embed_given given with
      | Some v => ∃ b, boolify (VStr v) = Return b ∧ get cmd "embed" = VBool b
      | None => get cmd "embed" = VBool true
      end ∧
      match last_given explicit_given given with
      | Some v =>
          ∃ b, boolify (VStr v) = Return b ∧ get cmd "explicit" = VBool b
      | None => get cmd "explicit" = VBool false
      end ∧
      match last_given omit_default_given given with
      | Some v =>
          ∃ b, boolify (VStr v) = Return b ∧ get cmd "omitDefault" = VBool b
      | None => get cmd "omitDefault" = VBool false
      end ∧
      Forall accepted (omap boolean_argument given)
  | Throw e =>
      ∃ before v after,
        omap boolean_argument given = before ++ v :: after ∧
        Forall accepted before ∧
        boolify (VStr v) = Throw e ∧
        e = new_Error ("Invalid boolean:" +:+ v)
  | Exit _ => False
  end.
Proof.
  unfold frame_command.
  set (defaults := <["omitDefault" := VBool false]>
                     (<["explicit" := VBool false]>
                        (<["embed" := VBool true]> (_jsonLdCommand common)))).
  assert (Hstep : ∀ k sel,
    (∀ o, sel o = match o with
                  | FrameFile _ => None
                  | Embed v => if decide ("embed" = k) then Some v else None
                  | Explicit v =>
                      if decide ("explicit" = k) then Some v else None
                  | OmitDefault v =>
                      if decide ("omitDefault" = k) then Some v else None
                  end) →
    k ≠ "frame" →
    ∀ cmd o cmd', set_frame cmd o = Return cmd' →
      match sel o with
      | Some v => ∃ b, boolify (VStr v) = Return b ∧ get cmd' k = VBool b
      | None => get cmd' k = get cmd k
      end).
  { intros k sel Hsel Hk cmd o cmd' Ho. rewrite Hsel.
    destruct o as [file|v|v|v]; cbn [set_frame] in Ho.
    - injection Ho as <-. by rewrite get_insert_ne.
    - destruct (boolify (VStr v)) as [b| |] eqn:Hb; cbn in Ho; try done.
      injection Ho as <-. rewrite get_insert.
      destruct (decide ("embed" = k)); [by exists b|done].
    - destruct (boolify (VStr v)) as [b| |] eqn:Hb; cbn in Ho; try done.
      injection Ho as <-. rewrite get_insert.
      destruct (decide ("explicit" = k)); [by exists b|done].
    - destruct (boolify (VStr v)) as [b| |] eqn:Hb; cbn in Ho; try done.
      injection Ho as <-. rewrite get_insert.
      destruct (decide ("omitDefault" = k)); [by exists b|done]. }
  assert (Hd : get defaults "embed" = VBool true ∧
               get defaults "explicit" = VBool false ∧
               get defaults "omitDefault" = VBool false).
  { subst defaults. repeat split.
    - rewrite get_insert_ne by done. rewrite get_insert_ne by done.
      apply get_insert_eq.
    - rewrite get_insert_ne by done. apply get_insert_eq.
    - apply get_insert_eq. }
  destruct Hd as (Hd1 & Hd2 & Hd3).
  pose proof (set_frame_options_outcome given defaults) as Hout.
  destruct (set_frame_options defaults given) as [cmd|e|c] eqn:Hrun; [| |done].
  - split; [|split; [|split; [|done]]].
    + pose proof (set_frame_options_key "embed" embed_given
                    (Hstep "embed" embed_given
                       ltac:(by intros []) ltac:(done))
                    given defaults cmd Hrun) as H.
      destruct (last_given embed_given given); [done|]. by rewrite H, Hd1.
    + pose proof (set_frame_options_key "explicit" explicit_given
                    (Hstep "explicit" explicit_given
                       ltac:(by intros []) ltac:(done))
                    given defaults cmd Hrun) as H.
      destruct (last_given explicit_given given); [done|]. by rewrite H, Hd2.
    + pose proof (set_frame_options_key "omitDefault" omit_default_given
                    (Hstep "omitDefault" omit_default_given
                       ltac:(by intros []) ltac:(done))
                    given defaults cmd Hrun) as H.
      destruct (last_given omit_default_given given); [done|].
      by rewrite H, Hd3.
  - destruct Hout as (before & v & after & Heq & Hacc & Hv).
    exists before, v, after. repeat split; try done.
    destruct (boolify_string v) as [[b Hb]|Hb]; congruence.
Qed.

(** The common output function makes no request and leaves [_primary]
    alone. *)
Lemma output_keeps_requests (data : value) (cmd : gmap string value)
    (w : world) :
  issued (_output data cmd w).1 = issued w ∧
  _primary (_output data cmd w).1 = _primary w.
Proof.
  unfold _output, mbind, M_bind.
  destruct (is_object data).
  - destruct (JSON.stringify number_text data (get cmd "indent")); simpl;
      by destruct (truthy (get cmd "newline")).
  - destruct data; simpl; by destruct (truthy (get cmd "newline")).
Qed.

(** X17. Formatting as JSON makes exactly one request, whatever the document
    holds and whether or not the request and the writing succeed: the input
    itself, as the primary resource with the full allow-list.  Nothing the
    document refers to is loaded. *)
Theorem format_json_single_request (input : option string)
    (cmd base : gmap string value) (f : string) (out : list string) :
  _jsonLdOptions cmd (input_or_stdin input) = Return base →
  selected_format cmd = VStr f →
  mem (Str.toLowerCase f) json_aliases = true →
  issued (format input cmd (World out true [])).1 =
    [(input_or_stdin input,
      <["allow" := ALLOW_ALL]>
        (_requestOptions cmd (input_or_stdin input)))] ∧
  _primary (format input cmd (World out true [])).1 = false.
Proof.
  intros Hbase Hsel Hj. pose proof (json_not_nquads _ Hj) as Hn.
  destruct (format_entry cmd base) as [Hfmt _]. cbv zeta in Hfmt.
  rewrite Hsel in Hfmt.
  assert (Hform : format input cmd =
    (reqResult ← _jsonldRequest (input_or_stdin input)
                   (_requestOptions cmd (input_or_stdin input)) base;
     _output (get reqResult "data") cmd)).
  { destruct (format_entry cmd base) as [_ Hallow]. cbv zeta in Hallow.
    unfold format. rewrite Hbase. unfold mbind at 1, M_bind at 1, lift.
    cbv zeta. rewrite Hfmt, Hn, Hj.
    by rewrite (jsonldRequest_allow _ _ _ base Hallow). }
  rewrite Hform. clear Hform Hfmt.
  change ((_jsonldRequest (input_or_stdin input)
             (_requestOptions cmd (input_or_stdin input)) base
           ≫= (λ reqResult, _output (get reqResult "data") cmd))
            (World out true []))
    with (match jsonldRequest (input_or_stdin input)
                  (<["allow" := ALLOW_ALL]>
                     (_requestOptions cmd (input_or_stdin input))) with
          | Return a =>
              _output (get a "data") cmd
                (World out false
                   [(input_or_stdin input,
                     <["allow" := ALLOW_ALL]>
                       (_requestOptions cmd (input_or_stdin input)))])
          | Throw e =>
              (World out false
                 [(input_or_stdin input,
                   <["allow" := ALLOW_ALL]>
                     (_requestOptions cmd (input_or_stdin input)))],
               Throw e)
          | Exit c =>
              (World out false
                 [(input_or_stdin input,
                   <["allow" := ALLOW_ALL]>
                     (_requestOptions cmd (input_or_stdin input)))],
               Exit c)
          end).
  destruct (jsonldRequest _ _) as [response|e|c]; [|done|done].
  destruct (output_keeps_requests (get response "data") cmd
              (World out false
                 [(input_or_stdin input,
                   <["allow" := ALLOW_ALL]>
                     (_requestOptions cmd (input_or_stdin input)))]))
    as [H1 H2].
  by rewrite H1, H2.
Qed.

(** The document loader reads the request options of the command and the
    [allow] entry of the options, nothing else. *)
Lemma documentLoader_depends (cmd cmd' options options' : gmap string value) :
  get cmd' "base" = get cmd "base" →
  get cmd' "sourceBase" = get cmd "sourceBase" →
  get cmd' "insecure" = get cmd "insecure" →
  get cmd' "type" = get cmd "type" →
  get options' "allow" = get options "allow" →
  documentLoader cmd' options' = documentLoader cmd options.
Proof.
  intros Hb Hs Hi Ht Ha.
  unfold documentLoader, _requestOptions, _getBase, _jsonldRequest.
  by rewrite Hb, Hs, Hi, Ht, Ha.
Qed.

Lemma insert_absorbs (k : string) (v : value) (m1 m2 : gmap string value) :
  (∀ j, j ≠ k → m1 !! j = m2 !! j) → <[k := v]> m1 = <[k := v]> m2.
Proof.
  intros H. apply map_eq. intros j. destruct (decide (j = k)) as [->|Hj].
  - by rewrite !lookup_insert_eq.
  - rewrite !lookup_insert_ne by done. by apply H.
Qed.

(** Two command lines that agree on [-a], [-s] and [-b] get the same
    options, up to the warning handler. *)
Lemma jsonLdOptions_depends (cmd cmd' : gmap string value) (input : string) :
  get cmd' "allow" = get cmd "allow" →
  get cmd' "safe" = get cmd "safe" →
  get cmd' "base" = get cmd "base" →
  get cmd' "sourceBase" = get cmd "sourceBase" →
  match _jsonLdOptions cmd input with
  | Return o =>
      ∃ o', _jsonLdOptions cmd' input = Return o' ∧
            get o' "allow" = get o "allow" ∧
            <["eventHandler" := VFun "_warningHandler"]> o' =
              <["eventHandler" := VFun "_warningHandler"]> o
  | Throw e => _jsonLdOptions cmd' input = Throw e
  | Exit c => _jsonLdOptions cmd' input = Exit c
  end.
Proof.
  intros Ha Hs Hb Hsb.
  assert (Hbase : _getBase cmd' input = _getBase cmd input).
  { unfold _getBase. by rewrite Hb, Hsb. }
  unfold _jsonLdOptions. rewrite Ha, Hs, Hbase.
  match goal with
  | |- context [@mbind outcome _ _ _ _ ?X] => destruct X as [o0| |]
  end; [|done|done].
  simpl. eexists. split; [reflexivity|]. split.
  - destruct (truthy (get cmd "safe")), (truthy (get cmd "lint")),
      (truthy (get cmd' "lint")); by rewrite !get_insert_ne by done.
  - apply insert_absorbs. intros j Hj.
    destruct (truthy (get cmd "safe")), (truthy (get cmd "lint")),
      (truthy (get cmd' "lint"));
      rewrite !lookup_insert; repeat case_decide; congruence.
Qed.

(** X19. [lint] reads only [-a], [-s], [-b], [-k] and [-t].  Any other
    option changes nothing: not [-i] or [-N], since [lint] writes no result,
    and not [-l], since [lint] installs the warning handler itself. *)
Theorem lint_reads_few_options (input : option string)
    (cmd : gmap string value) (k : string) (v : value) :
  k ∉ ["allow"; "safe"; "base"; "sourceBase"; "insecure"; "type"] →
  lint input (<[k := v]> cmd) = lint input cmd.
Proof.
  intros Hk.
  assert (Hne : k ≠ "allow" ∧ k ≠ "safe" ∧ k ≠ "base" ∧ k ≠ "sourceBase" ∧
                k ≠ "insecure" ∧ k ≠ "type").
  { repeat (apply not_elem_of_cons in Hk as [? Hk]). done. }
  destruct Hne as (H1 & H2 & H3 & H4 & H5 & H6).
  pose proof (jsonLdOptions_depends cmd (<[k := v]> cmd)
                (input_or_stdin input)
                (get_insert_ne _ _ _ _ H1) (get_insert_ne _ _ _ _ H2)
                (get_insert_ne _ _ _ _ H3) (get_insert_ne _ _ _ _ H4)) as Ho.
  unfold lint.
  destruct (_jsonLdOptions cmd (input_or_stdin input)) as [o|e|c].
  - destruct Ho as (o' & -> & Hallow & Heh).
    unfold mbind at 1 4, M_bind at 1 3, lift. simpl.
    rewrite Heh.
    by rewrite (documentLoader_depends cmd (<[k := v]> cmd) o o'
                  (get_insert_ne _ _ _ _ H3) (get_insert_ne _ _ _ _ H4)
                  (get_insert_ne _ _ _ _ H5) (get_insert_ne _ _ _ _ H6)
                  Hallow).
  - by rewrite Ho.
  - by rewrite Ho.
Qed.

(** *** What holds of all the requests of an invocation *)

Lemma keeps_bind (P : world → Prop) {A B : Type} (m : M A) (k : A → M B) :
  keeps P m → (∀ x, keeps P (k x)) → keeps P (m ≫= k).
Proof.
  intros Hm Hk w Hw. specialize (Hm w Hw). unfold mbind, M_bind.
  destruct (m w) as [w' [x|e|c]]; [|done|done]. by apply Hk.
Qed.

Lemma keeps_lift (P : world → Prop) {A : Type} (o : outcome A) :
  keeps P (lift o).
Proof. by intros w Hw. Qed.

Lemma keeps_loader (P : world → Prop) (cmd options : gmap string value)
    (url : string) :
  keeps P (_jsonldRequest url (_requestOptions cmd url) options) →
  keeps P (documentLoader cmd options url).
Proof.
  intros Hrequest. unfold documentLoader. apply keeps_bind; [done|].
  by intros response w Hw.
Qed.

Lemma keeps_output (P : world → Prop) (data : value)
    (cmd : gmap string value) :
  about_requests P → keeps P (_output data cmd).
Proof.
  intros HP w Hw. destruct (output_keeps_requests data cmd w) as [Hi Hp].
  by apply (HP w).
Qed.

(** A script makes its requests through the loader only. *)
Lemma keeps_run (P : world → Prop) (loader : string → M value) (t : script) :
  about_requests P → (∀ url, keeps P (loader url)) → keeps P (run t loader).
Proof.
  intros HP Hloader.
  induction t as [result|url next IH|line next IH]; intros w Hw.
  - done.
  - simpl. specialize (Hloader url w Hw).
    destruct (loader url w) as [w' [x|e|c]]; [by apply IH|by apply IH|done].
  - simpl. apply IH. by apply (HP w).
Qed.

(** Each command keeps what its requests keep, for a library that makes its
    requests through the loader it is given. *)
Lemma commands_keep (P : world → Prop) (input : option string)
    (cmd base : gmap string value) :
  _jsonLdOptions cmd (input_or_stdin input) = Return base →
  about_requests P →
  (∀ options url, get options "allow" = get base "allow" →
     keeps P (_jsonldRequest url (_requestOptions cmd url) options)) →
  (∀ loader i o, (∀ url, keeps P (loader url)) →
     keeps P (jsonld_toRDF loader i o)) →
  (∀ loader i o, (∀ url, keeps P (loader url)) →
     keeps P (jsonld_expand loader i o)) →
  (∀ loader i o, (∀ url, keeps P (loader url)) →
     keeps P (jsonld_canonize loader i o)) →
  (∀ loader i c o, (∀ url, keeps P (loader url)) →
     keeps P (jsonld_compact loader i c o)) →
  (∀ loader i c o, (∀ url, keeps P (loader url)) →
     keeps P (jsonld_flatten loader i c o)) →
  (∀ loader i c o, (∀ url, keeps P (loader url)) →
     keeps P (jsonld_frame loader i c o)) →
  Forall (keeps P)
    [format input cmd; lint input cmd; compact input cmd; expand input cmd;
     flatten input cmd; frame input cmd; toRdf input cmd;
     canonize input cmd].
Proof.
  intros Hbase HP Hrequest HtoRDF Hexpand Hcanonize Hcompact Hflatten Hframe.
  assert (Hload : ∀ options, get options "allow" = get base "allow" →
                  ∀ url, keeps P (documentLoader cmd options url)).
  { intros options Ho url. by apply keeps_loader, Hrequest. }
  assert (Hwritten : ∀ (m : M unit) (call : M value),
            (∀ w, m w = then_written call cmd w) →
            keeps P call → keeps P m).
  { intros m call Hm Hcall w Hw. rewrite Hm. unfold then_written.
    specialize (Hcall w Hw).
    destruct (call w) as [w' [result|e|c]]; [|done|done].
    rewrite <- output_is_written. by apply keeps_output. }
  destruct (commands_written input cmd base Hbase)
    as ((o1 & Ha1 & H1) & H2 & (o3 & Ha3 & H3) & (o4 & Ha4 & H4) & H5 & H6).
  repeat apply Forall_cons_2; [..|apply Forall_nil_2].
  - destruct (selected_format cmd) as [| | | |f| | |] eqn:Hsel;
      try (destruct (format_entry cmd base) as [Hfmt _];
           cbv zeta in Hfmt; rewrite Hsel in Hfmt;
           unfold format; rewrite Hbase;
           unfold mbind at 1, M_bind at 1, lift; cbv zeta; rewrite Hfmt;
           by intros w Hw).
    destruct (format_cases input cmd base f Hbase Hsel) as (Hn & Hj & Hu).
    destruct (mem (Str.toLowerCase f) nquads_aliases) eqn:Hq.
    + destruct (Hn eq_refl) as (options & _ & Hallow & ->).
      apply keeps_bind; [by apply HtoRDF, Hload|].
      intros result. by apply keeps_output.
    + destruct (mem (Str.toLowerCase f) json_aliases) eqn:Hq'.
      * rewrite (Hj eq_refl). apply keeps_bind; [by apply Hrequest|].
        intros response. by apply keeps_output.
      * rewrite (Hu eq_refl eq_refl). by intros w Hw.
  - unfold lint. rewrite Hbase. unfold mbind at 1, M_bind at 1, lift.
    apply keeps_bind; [|by intros x w Hw].
    by apply Hexpand, Hload.
  - destruct (truthy (get cmd "context")) eqn:Hctx.
    + destruct (H5 eq_refl) as (o5 & Ha5 & Heq).
      apply (Hwritten _ _ Heq). by apply Hcompact, Hload.
    + unfold compact. rewrite Hctx. by intros w Hw.
  - apply (Hwritten _ _ H1). by apply Hexpand, Hload.
  - apply (Hwritten _ _ H2). by apply Hflatten, Hload.
  - destruct (truthy (get cmd "frame")) eqn:Hfr.
    + destruct (H6 eq_refl) as (o6 & Ha6 & Heq).
      apply (Hwritten _ _ Heq). by apply Hframe, Hload.
    + unfold frame. rewrite Hfr. by intros w Hw.
  - apply (Hwritten _ _ H3). by apply HtoRDF, Hload.
  - apply (Hwritten _ _ H4). by apply Hcanonize, Hload.
Qed.

(** The wrapper keeps the allow-list policy. *)
Lemma policy_request (a : value) (url : string)
    (req options : gmap string value) :
  get options "allow" = a →
  keeps (follows_policy a) (_jsonldRequest url req options).
Proof.
  intros Ha w [[Hp Hi]|(Hp & Hi & Hpol)]; right; unfold _jsonldRequest;
    rewrite Hp; simpl.
  - rewrite Hi. simpl. repeat split; try done.
    by rewrite lookup_insert_eq.
  - split; [done|]. split; [by destruct (issued w)|].
    destruct (issued w) as [|first later]; [done|]. simpl in *.
    destruct Hpol as [Hfirst Hlater]. split; [done|].
    apply Forall_app. split; [done|].
    constructor; [|constructor]. simpl. by rewrite lookup_insert_eq, Ha.
Qed.

Lemma policy_about_requests (a : value) : about_requests (follows_policy a).
Proof. intros w w' Hi Hp. unfold follows_policy. by rewrite Hi, Hp. Qed.

(** A request made with the request options of the command line carries
    them. *)
Lemma options_request (cmd options : gmap string value) (url : string) :
  keeps (carries_request_options cmd)
    (_jsonldRequest url (_requestOptions cmd url) options).
Proof.
  intros w Hw. unfold carries_request_options, _jsonldRequest. simpl.
  apply Forall_app. split; [done|]. constructor; [|constructor].
  intros k Hk. simpl. destruct (_primary w); by rewrite lookup_insert_ne.
Qed.

Lemma options_about_requests (cmd : gmap string value) :
  about_requests (carries_request_options cmd).
Proof. intros w w' Hi Hp. unfold carries_request_options. by rewrite Hi. Qed.

(** A script run with the document loader only adds requests. *)
Lemma run_extends (cmd options : gmap string value) (t : script) :
  ∀ w, ∃ new,
    issued (run t (documentLoader cmd options) w).1 = issued w ++ new.
Proof.
  induction t as [result|url next IH|line next IH]; intros w.
  - exists []. by rewrite app_nil_r.
  - simpl. unfold documentLoader at 1, mbind, M_bind, _jsonldRequest.
    destruct (jsonldRequest url _) as [response|e|c]; simpl.
    + match goal with
      | |- context [run (next ?r) _ ?w'] =>
          destruct (IH r w') as [new Hnew]
      end.
      rewrite Hnew. simpl. rewrite <- app_assoc. by eexists.
    + match goal with
      | |- context [run (next ?r) _ ?w'] =>
          destruct (IH r w') as [new Hnew]
      end.
      rewrite Hnew. simpl. rewrite <- app_assoc. by eexists.
    + by eexists.
  - simpl. destruct (IH (put_chunk line w)) as [new Hnew]. by exists new.
Qed.

End Program.

(** ** Invocations *)

(** C2, on the code.  In every invocation of every command the requests
    follow the policy of the wrapper: the first request is issued with the
    allow-list ['stdin', 'file', 'http', 'https'], whatever [-a] says; every
    later one is issued with [options.allow]; and once a request has been
    made [_primary] is false, so the full list is never granted again.  The
    first request is the one for the location the library loads first.  But
    [options.allow] is the list derived from the command line only when
    [-a/--allow] has a value: without it the default list is stored under
    [options.access], [options.allow] is undefined, and undefined is what
    every later request is issued with.  The library is any one whose
    functions are given by scripts. *)
Theorem primary_then_secondary (number_text : number → string)
    (stack_frames : string) (write_error : value → thrown) (cwd : string)
    (path_resolve : string → string → string)
    (jsonldRequest : string → gmap string value → outcome (gmap string value))
    (toRDF_script expand_script canonize_script :
       string → gmap string value → script)
    (compact_script flatten_script frame_script :
       string → value → gmap string value → script)
    (input : option string) (cmd base : gmap string value) :
  _jsonLdOptions stack_frames cwd path_resolve cmd (input_or_stdin input)
    = Return base →
  Forall
    (fun action : M unit =>
       allow_policy (get base "allow") (issued (action initial).1) ∧
       (issued (action initial).1 = [] ∨ _primary (action initial).1 = false))
    [format number_text stack_frames write_error cwd path_resolve
       jsonldRequest (scripted toRDF_script) input cmd;
     lint stack_frames cwd path_resolve jsonldRequest
       (scripted expand_script) input cmd;
     compact number_text stack_frames write_error cwd path_resolve
       jsonldRequest (scripted_with compact_script) input cmd;
     expand number_text stack_frames write_error cwd path_resolve
       jsonldRequest (scripted expand_script) input cmd;
     flatten number_text stack_frames write_error cwd path_resolve
       jsonldRequest (scripted_with flatten_script) input cmd;
     frame number_text stack_frames write_error cwd path_resolve
       jsonldRequest (scripted_with frame_script) input cmd;
     toRdf number_text stack_frames write_error cwd path_resolve
       jsonldRequest (scripted toRDF_script) input cmd;
     canonize number_text stack_frames write_error cwd path_resolve
       jsonldRequest (scripted canonize_script) input cmd] ∧
  (truthy (get cmd "allow") = false →
   get base "allow" = VUndefined ∧
   get base "access" = VArr [VStr "http"; VStr "https"]) ∧
  (∀ (options : gmap string value) (t : script) url next,
     t = Load url next →
     ∃ later,
       issued (run t (documentLoader cwd path_resolve jsonldRequest cmd
                        options) initial).1 =
         (url,
          <["allow" :=
              VArr [VStr "stdin"; VStr "file"; VStr "http"; VStr "https"]]>
            (_requestOptions cwd path_resolve cmd url)) :: later).
Proof.
  intros Hbase. split; [|split].
  - assert (Hinit : follows_policy (get base "allow") initial) by by left.
    assert (Hspec : ∀ w, follows_policy (get base "allow") w →
              allow_policy (get base "allow") (issued w) ∧
              (issued w = [] ∨ _primary w = false)).
    { intros w [[Hp Hi]|(Hp & Hi & Hpol)]; [|by split; [|right]].
      rewrite Hi. by split; [|left]. }
    pose proof (commands_keep number_text stack_frames write_error cwd
                  path_resolve jsonldRequest
                  (scripted toRDF_script) (scripted expand_script)
                  (scripted canonize_script) (scripted_with compact_script)
                  (scripted_with flatten_script) (scripted_with frame_script)
                  (follows_policy (get base "allow")) input cmd base Hbase
                  (policy_about_requests _)) as Hall.
    eapply Forall_impl.
    + apply Hall;
        [intros options url Ho; by apply policy_request|
         intros; apply keeps_run; [apply policy_about_requests|done]..].
    + intros action Haction. by apply Hspec, Haction.
  - intros Hallow.
    destruct (jsonLdOptions_allow stack_frames cwd path_resolve cmd
                (input_or_stdin input)) as (options & Ho & Ha & Haccess).
    rewrite Hallow in Ho, Ha, Haccess. rewrite Hbase in Ho.
    injection Ho as <-. by split.
  - intros options t url next ->. simpl.
    unfold documentLoader at 1, mbind, M_bind, _jsonldRequest. simpl.
    destruct (jsonldRequest url _) as [response|e|c]; simpl.
    + match goal with
      | |- context [run (next ?r) _ ?w'] =>
          destruct (run_extends cwd path_resolve jsonldRequest cmd options
                      (next r) w') as [new Hnew]
      end.
      rewrite Hnew. by eexists.
    + match goal with
      | |- context [run (next ?r) _ ?w'] =>
          destruct (run_extends cwd path_resolve jsonldRequest cmd options
                      (next r) w') as [new Hnew]
      end.
      rewrite Hnew. by eexists.
    + by eexists.
Qed.

(** X20. In every invocation of every command, each request made, the
    primary one and the secondary ones alike, carries the request options of
    the command line: apart from [allow], which the wrapper sets, its options
    are what [_requestOptions] builds for the location requested.  So with
    [-k/--insecure] every request is made with an agent that accepts any
    certificate, and with a non-empty [-t/--type] every request names that
    data type.  The library is any one whose functions are given by
    scripts. *)
Theorem every_request_has_command_options (number_text : number → string)
    (stack_frames : string) (write_error : value → thrown) (cwd : string)
    (path_resolve : string → string → string)
    (jsonldRequest : string → gmap string value → outcome (gmap string value))
    (toRDF_script expand_script canonize_script :
       string → gmap string value → script)
    (compact_script flatten_script frame_script :
       string → value → gmap string value → script)
    (input : option string) (cmd base : gmap string value) :
  _jsonLdOptions stack_frames cwd path_resolve cmd (input_or_stdin input)
    = Return base →
  Forall
    (fun action : M unit =>
       Forall
         (fun r =>
            (∀ k, k ≠ "allow" →
                  r.2 !! k = _requestOptions cwd path_resolve cmd r.1 !! k) ∧
            r.2 !! "agent" =
              (if truthy (get cmd "insecure")
               then Some (VObj [("rejectUnauthorized", VBool false)])
               else None) ∧
            r.2 !! "dataType" =
              (if truthy (get cmd "type") then Some (get cmd "type")
               else None))
         (issued (action initial).1))
    [format number_text stack_frames write_error cwd path_resolve
       jsonldRequest (scripted toRDF_script) input cmd;
     lint stack_frames cwd path_resolve jsonldRequest
       (scripted expand_script) input cmd;
     compact number_text stack_frames write_error cwd path_resolve
       jsonldRequest (scripted_with compact_script) input cmd;
     expand number_text stack_frames write_error cwd path_resolve
       jsonldRequest (scripted expand_script) input cmd;
     flatten number_text stack_frames write_error cwd path_resolve
       jsonldRequest (scripted_with flatten_script) input cmd;
     frame number_text stack_frames write_error cwd path_resolve
       jsonldRequest (scripted_with frame_script) input cmd;
     toRdf number_text stack_frames write_error cwd path_resolve
       jsonldRequest (scripted toRDF_script) input cmd;
     canonize number_text stack_frames write_error cwd path_resolve
       jsonldRequest (scripted canonize_script) input cmd].
Proof.
  intros Hbase.
  pose proof (commands_keep number_text stack_frames write_error cwd
                path_resolve jsonldRequest
                (scripted toRDF_script) (scripted expand_script)
                (scripted canonize_script) (scripted_with compact_script)
                (scripted_with flatten_script) (scripted_with frame_script)
                (carries_request_options cwd path_resolve cmd) input cmd base
                Hbase (options_about_requests _ _ _)) as Hall.
  eapply Forall_impl.
  - apply Hall;
      [intros options url Ho; apply options_request|
       intros; apply keeps_run; [apply options_about_requests|done]..].
  - intros action Haction.
    assert (Hinit : carries_request_options cwd path_resolve cmd initial)
      by constructor.
    specialize (Haction initial Hinit).
    eapply Forall_impl; [exact Haction|].
    intros r Hr. split; [exact Hr|].
    rewrite !Hr by done. unfold _requestOptions.
    destruct (truthy (get cmd "insecure")), (truthy (get cmd "type"));
      by rewrite ?lookup_insert_eq, ?lookup_insert_ne, ?lookup_empty by done.
Qed.

(** ** The theorems at sample inputs *)

(** [-a none,all] on standard input. *)
Lemma allow_list_of_value_witness :
  get (_jsonLdCommand [Allow "none,all"]) "allow" = VStr "none,all" ∧
  "none,all" ≠ "" ∧
  ∃ options tokens,
    _jsonLdOptions Sample.stack_frames Sample.cwd Sample.path_resolve
      (_jsonLdCommand [Allow "none,all"]) "-" = Return options ∧
    String.concat "," tokens = "none,all" ∧
    Forall (fun t => has_char "," t = false) tokens ∧
    tokens ≠ [] ∧
    get options "allow" =
      (if decide ("all" ∈ tokens)
       then VArr [VStr "stdin"; VStr "file"; VStr "http"; VStr "https"]
       else if decide ("none" ∈ tokens) then VArr []
       else VArr (VStr <$> tokens)).
Proof.
  split; [reflexivity|]. split; [discriminate|].
  apply allow_list_of_value; [reflexivity|discriminate].
Defined.

(** C9 as it is written fails for the empty value: [-a ''] is taken for no
    [-a] at all.  The split of the empty value has one token, the empty one,
    and the claim has the allow-list made of it; the program leaves [allow]
    undefined and stores the default list under [access]. *)
Lemma allow_empty_value_counterexample :
  get (_jsonLdCommand [Allow ""]) "allow" = VStr "" ∧
  Str.split "," "" = [""] ∧
  ∃ options,
    _jsonLdOptions Sample.stack_frames Sample.cwd Sample.path_resolve
      (_jsonLdCommand [Allow ""]) "-" = Return options ∧
    get options "allow" = VUndefined ∧
    get options "allow" ≠ VArr [VStr ""] ∧
    get options "access" = VArr [VStr "http"; VStr "https"].
Proof.
  split; [reflexivity|]. split; [reflexivity|].
  eexists. split; [reflexivity|]. by repeat split.
Qed.

(** [expand doc.jsonld] without [-a], for a library that loads the input
    and then the context it names: the second request is issued with
    [allow] undefined. *)
Lemma primary_then_secondary_witness :
  ∃ base,
    _jsonLdOptions Sample.stack_frames Sample.cwd Sample.path_resolve
      (_jsonLdCommand []) "doc.jsonld" = Return base ∧
    get base "allow" = VUndefined ∧
    get base "access" = VArr [VStr "http"; VStr "https"] ∧
    allow_policy (get base "allow")
      (issued (expand Sample.number_text Sample.stack_frames
                 Sample.write_error Sample.cwd Sample.path_resolve
                 Sample.jsonldRequest (scripted Sample.expand_script)
                 (Some "doc.jsonld") (_jsonLdCommand []) initial).1) ∧
    issued (expand Sample.number_text Sample.stack_frames
              Sample.write_error Sample.cwd Sample.path_resolve
              Sample.jsonldRequest (scripted Sample.expand_script)
              (Some "doc.jsonld") (_jsonLdCommand []) initial).1 =
      [("doc.jsonld",
        <["allow" :=
            VArr [VStr "stdin"; VStr "file"; VStr "http"; VStr "https"]]>
          {[ "base" := VNull ]});
       ("https://example.org/context.jsonld",
        <["allow" := VUndefined]> {[ "base" := VNull ]})].
Proof.
  eexists. split; [reflexivity|].
  destruct (primary_then_secondary Sample.number_text Sample.stack_frames
              Sample.write_error Sample.cwd Sample.path_resolve
              Sample.jsonldRequest Sample.idle Sample.expand_script
              Sample.idle Sample.idle_with Sample.idle_with Sample.idle_with
              (Some "doc.jsonld") (_jsonLdCommand []) _ eq_refl)
    as (Hall & Hdefault & _).
  split; [exact (proj1 (Hdefault eq_refl))|].
  split; [exact (proj2 (Hdefault eq_refl))|].
  split; [|reflexivity].
  exact (proj1 (proj1 (Forall_lookup _ _) Hall 3%nat _ eq_refl)).
Defined.

(** [expand -k -t application/ld+json doc.jsonld]: both requests are made
    with the agent of [-k] and the data type of [-t]. *)
Lemma every_request_has_command_options_witness :
  let cmd := _jsonLdCommand [Insecure; InputType "application/ld+json"] in
  (∃ base, _jsonLdOptions Sample.stack_frames Sample.cwd
              Sample.path_resolve cmd "doc.jsonld" = Return base) ∧
  (fst <$> issued (expand Sample.number_text Sample.stack_frames
                     Sample.write_error Sample.cwd Sample.path_resolve
                     Sample.jsonldRequest (scripted Sample.expand_script)
                     (Some "doc.jsonld") cmd initial).1) =
    ["doc.jsonld"; "https://example.org/context.jsonld"] ∧
  Forall
    (fun r =>
       r.2 !! "agent" = Some (VObj [("rejectUnauthorized", VBool false)]) ∧
       r.2 !! "dataType" = Some (VStr "application/ld+json"))
    (issued (expand Sample.number_text Sample.stack_frames
               Sample.write_error Sample.cwd Sample.path_resolve
               Sample.jsonldRequest (scripted Sample.expand_script)
               (Some "doc.jsonld") cmd initial).1).
Proof.
  intros cmd. split; [eexists; reflexivity|]. split; [reflexivity|].
  pose proof (every_request_has_command_options Sample.number_text
                Sample.stack_frames Sample.write_error Sample.cwd
                Sample.path_resolve Sample.jsonldRequest Sample.idle
                Sample.expand_script Sample.idle Sample.idle_with
                Sample.idle_with Sample.idle_with (Some "doc.jsonld") cmd _
                eq_refl) as Hall.
  pose proof (proj1 (Forall_lookup _ _) Hall 3%nat _ eq_refl) as Hexpand.
  eapply Forall_impl; [exact Hexpand|].
  intros r (_ & Hagent & Htype). split; [exact Hagent|exact Htype].
Defined.


(** [format -f N-Quads], [format -f JSON-LD] and [format -f Turtle], on
    standard input. *)
Lemma format_dispatch_witness :
  (∃ base,
     _jsonLdOptions Sample.stack_frames Sample.cwd Sample.path_resolve
       (<["format" := VStr "N-Quads"]> (_jsonLdCommand [])) "-" = Return base ∧
     ∃ options,
       get options "format" = VStr "application/n-quads" ∧
       get options "allow" = get base "allow" ∧
       ∀ w,
         format Sample.number_text Sample.stack_frames Sample.write_error
           Sample.cwd Sample.path_resolve Sample.jsonldRequest
           Sample.jsonld_toRDF None
           (<["format" := VStr "N-Quads"]> (_jsonLdCommand [])) w =
           then_written Sample.number_text Sample.write_error
             (Sample.jsonld_toRDF
                (documentLoader Sample.cwd Sample.path_resolve
                   Sample.jsonldRequest
                   (<["format" := VStr "N-Quads"]> (_jsonLdCommand []))
                   options) "-" options)
             (<["format" := VStr "N-Quads"]> (_jsonLdCommand [])) w) ∧
  (∃ base,
     _jsonLdOptions Sample.stack_frames Sample.cwd Sample.path_resolve
       (<["format" := VStr "JSON-LD"]> (_jsonLdCommand [])) "-" = Return base ∧
     ∀ w,
       format Sample.number_text Sample.stack_frames Sample.write_error
         Sample.cwd Sample.path_resolve Sample.jsonldRequest
         Sample.jsonld_toRDF None
         (<["format" := VStr "JSON-LD"]> (_jsonLdCommand [])) w =
         then_written Sample.number_text Sample.write_error
           (response ← _jsonldRequest Sample.jsonldRequest "-"
                         (_requestOptions Sample.cwd Sample.path_resolve
                            (<["format" := VStr "JSON-LD"]>
                               (_jsonLdCommand [])) "-") base;
            mret (get response "data"))
           (<["format" := VStr "JSON-LD"]> (_jsonLdCommand [])) w) ∧
  exit_status
    (main Sample.number_text Sample.inspect
       (format Sample.number_text Sample.stack_frames Sample.write_error
          Sample.cwd Sample.path_resolve Sample.jsonldRequest
          Sample.jsonld_toRDF None
          (<["format" := VStr "Turtle"]> (_jsonLdCommand []))) initial) = 1.
Proof.
  split; [|split].
  - eexists. split; [reflexivity|].
    refine (proj1 (format_dispatch Sample.number_text Sample.stack_frames
                     Sample.inspect Sample.write_error Sample.cwd
                     Sample.path_resolve Sample.jsonldRequest
                     Sample.jsonld_toRDF None
                     (<["format" := VStr "N-Quads"]> (_jsonLdCommand [])) _
                     "N-Quads" _ _) _); reflexivity.
  - eexists. split; [reflexivity|].
    refine (proj1 (proj2 (format_dispatch Sample.number_text
              Sample.stack_frames Sample.inspect Sample.write_error
              Sample.cwd Sample.path_resolve Sample.jsonldRequest
              Sample.jsonld_toRDF None
              (<["format" := VStr "JSON-LD"]> (_jsonLdCommand [])) _
              "JSON-LD" _ _)) _); reflexivity.
  - refine (proj2 (proj2 (proj1 (proj2 (proj2 (format_dispatch
              Sample.number_text Sample.stack_frames Sample.inspect
              Sample.write_error Sample.cwd Sample.path_resolve
              Sample.jsonldRequest Sample.jsonld_toRDF None
              (<["format" := VStr "Turtle"]> (_jsonLdCommand [])) _
              "Turtle" _ _))) _ _ initial))); reflexivity.
Defined.

(** C6 as it is written fails for a document that is a string: [format]
    writes the string as it is, less the white space around it, and not its
    JSON text, which is the string between double quotes. *)
Lemma format_string_document_counterexample :
  selected_format (_jsonLdCommand []) = VStr "json" ∧
  JSON.stringify Sample.number_text (VStr " hello world ")
    (get (_jsonLdCommand []) "indent") =
    Some (Str.dquote +:+ " hello world " +:+ Str.dquote) ∧
  format Sample.number_text Sample.stack_frames Sample.write_error
    Sample.cwd Sample.path_resolve Sample.string_request Sample.jsonld_toRDF
    (Some "doc.json") (_jsonLdCommand []) initial =
    (World ["hello world"; Str.LF] false
       [("doc.json",
         <["allow" := ALLOW_ALL]>
           (_requestOptions Sample.cwd Sample.path_resolve
              (_jsonLdCommand []) "doc.json"))],
     Return tt) ∧
  "hello world" ≠ Str.dquote +:+ " hello world " +:+ Str.dquote.
Proof. by repeat split. Qed.

(** C7 as it is written fails above 10: with [-i 11] the object is written
    with 10 spaces of indentation, not 11.  It fails for [lint] as well:
    the library answers with the same array [expand] writes, and [lint]
    writes nothing. *)
Lemma indent_above_ten_counterexample :
  get (_jsonLdCommand [Indent (int 11)]) "indent" = VNum (int 11) ∧
  (¬ ∃ text,
       json_indented Sample.number_text 11 (VObj [("a", VNum (int 1))])
         = Some text ∧
       _output Sample.number_text Sample.write_error
         (VObj [("a", VNum (int 1))]) (_jsonLdCommand [Indent (int 11)])
         initial =
         (put_chunks
            (text :: trailing_newline (_jsonLdCommand [Indent (int 11)]))
            initial, Return tt)) ∧
  _output Sample.number_text Sample.write_error
    (VObj [("a", VNum (int 1))]) (_jsonLdCommand [Indent (int 11)]) initial =
    (put_chunks
       ["{" +:+ Str.LF +:+ "          " +:+ Str.dquote +:+ "a" +:+ Str.dquote
            +:+ ": 1" +:+ Str.LF +:+ "}"; Str.LF] initial, Return tt) ∧
  stdout (expand Sample.number_text Sample.stack_frames Sample.write_error
            Sample.cwd Sample.path_resolve Sample.jsonldRequest
            Sample.jsonld_expand (Some "doc.jsonld")
            (_jsonLdCommand [Indent (int 0); NoNewline]) initial).1 =
    ["[{" +:+ Str.quote "contextUrl" +:+ ":null,"
          +:+ Str.quote "documentUrl" +:+ ":" +:+ Str.quote "doc.jsonld" +:+ ","
          +:+ Str.quote "document" +:+ ":{" +:+ Str.quote "@id" +:+ ":"
          +:+ Str.quote "doc.jsonld" +:+ "}}]"] ∧
  lint Sample.stack_frames Sample.cwd Sample.path_resolve
    Sample.jsonldRequest Sample.jsonld_expand (Some "doc.jsonld")
    (_jsonLdCommand [Indent (int 0); NoNewline]) initial =
    (World [] false
       [("doc.jsonld",
         <["allow" := ALLOW_ALL]>
           (_requestOptions Sample.cwd Sample.path_resolve
              (_jsonLdCommand [Indent (int 0); NoNewline]) "doc.jsonld"))],
     Return tt).
Proof.
  split; [reflexivity|]. split; [|by repeat split].
  intros (text & Ht & Ho).
  vm_compute in Ht. injection Ht as <-. vm_compute in Ho. discriminate.
Qed.

(** An error with properties and a cause, and an action that returns. *)
Lemma errors_reported_exit_1_witness :
  let e := TObj "Error: loading failed" (Some "Error: loading failed")
             [("code", VStr "ERR_LOAD")]
             (TObj "Error: not found" None [] (TPrim PUndefined)) in
  thrown_truthy e = true ∧
  _error Sample.number_text Sample.inspect e "Error:" initial =
    (put_chunks (report Sample.number_text Sample.inspect "Error:" e)
       initial, Exit 1) ∧
  (main Sample.number_text Sample.inspect (throw e) initial =
     (put_chunks (report Sample.number_text Sample.inspect "Error:" e)
        initial, Exit 1) ∧
   exit_status
     (main Sample.number_text Sample.inspect (throw e) initial) = 1) ∧
  (main Sample.number_text Sample.inspect (mret tt) initial =
     (initial, Return tt) ∧
   exit_status
     (main Sample.number_text Sample.inspect (mret tt) initial) = 0).
Proof.
  intros e.
  pose proof (errors_reported_exit_1 Sample.number_text Sample.inspect)
    as (H1 & H2 & H3).
  split; [reflexivity|].
  split; [apply H1; reflexivity|].
  split; [apply (H2 _ initial initial); reflexivity|].
  apply (H3 _ initial initial); reflexivity.
Defined.

(** [compact] and [frame] with no option at all. *)
Lemma missing_context_or_frame_witness :
  truthy (get (_jsonLdCommand []) "context") = false ∧
  truthy (get (_jsonLdCommand []) "frame") = false ∧
  exit_status
    (main Sample.number_text Sample.inspect
       (compact Sample.number_text Sample.stack_frames Sample.write_error
          Sample.cwd Sample.path_resolve Sample.jsonldRequest
          Sample.jsonld_compact None (_jsonLdCommand [])) initial) = 1 ∧
  exit_status
    (main Sample.number_text Sample.inspect
       (frame Sample.number_text Sample.stack_frames Sample.write_error
          Sample.cwd Sample.path_resolve Sample.jsonldRequest
          Sample.jsonld_frame None (_jsonLdCommand [])) initial) = 1.
Proof.
  pose proof (missing_context_or_frame Sample.number_text
                Sample.stack_frames Sample.inspect
                Sample.write_error Sample.cwd Sample.path_resolve
                Sample.jsonldRequest Sample.jsonld_compact
                Sample.jsonld_frame) as [Hc Hf].
  split; [reflexivity|]. split; [reflexivity|]. split.
  - apply (Hc None (_jsonLdCommand []) initial). reflexivity.
  - apply (Hf None (_jsonLdCommand []) initial). reflexivity.
Defined.

(** ** Sample runs *)

(** [-a none]: the first request still gets the full list, the second the
    empty one. *)
Example allow_none_run :
  ∃ options,
    _jsonLdOptions Sample.stack_frames Sample.cwd Sample.path_resolve
      (_jsonLdCommand [Allow "none"]) "doc.jsonld" = Return options ∧
    snd <$> issued (after_requests Sample.jsonldRequest options
                      [("doc.jsonld", ∅); ("ctx.jsonld", ∅)] initial) =
      [ {[ "allow" := ALLOW_ALL ]}; {[ "allow" := ALLOW_NONE ]} ].
Proof. eexists. split; reflexivity. Qed.

Example boolify_words :
  boolify Sample.number_text Sample.stack_frames Sample.object_text
    (VStr "YES") = Return true ∧
  boolify Sample.number_text Sample.stack_frames Sample.object_text
    (VStr "F") = Return false ∧
  boolify Sample.number_text Sample.stack_frames Sample.object_text
    (VStr "") = Throw (new_Error Sample.stack_frames "Invalid boolean:") ∧
  boolify Sample.number_text Sample.stack_frames Sample.object_text
    (VStr "on") = Throw (new_Error Sample.stack_frames "Invalid boolean:on").
Proof. by repeat split. Qed.

Example split_tokens :
  Str.split "," "file,http" = ["file"; "http"] ∧
  Str.split "," "" = [""] ∧
  Str.split "," "a,,b," = ["a"; ""; "b"; ""].
Proof. by repeat split. Qed.

Example stringify_compact :
  JSON.stringify Sample.number_text
    (VObj [("a", VArr [VNum (int 1); VUndefined]); ("b", VUndefined)])
    (VNum (int 0)) = Some ("{" +:+ Str.quote "a" +:+ ":[1,null]}").
Proof. reflexivity. Qed.

(** [lint] writes no result: with the sample library the standard output
    stays empty. *)
Example lint_writes_nothing :
  stdout (lint Sample.stack_frames Sample.cwd Sample.path_resolve
            Sample.jsonldRequest Sample.jsonld_expand (Some "doc.jsonld")
            (_jsonLdCommand []) initial).1 = [].
Proof. reflexivity. Qed.

(** [expand doc.jsonld] with the sample library: one request, the primary
    one, and the document on standard output. *)
Example expand_run :
  let r := main Sample.number_text Sample.inspect
             (expand Sample.number_text Sample.stack_frames
                Sample.write_error Sample.cwd Sample.path_resolve
                Sample.jsonldRequest Sample.jsonld_expand (Some "doc.jsonld")
                (_jsonLdCommand [Indent (int 0); NoNewline]))
             initial in
  stdout r.1 =
    ["[{" +:+ Str.quote "contextUrl" +:+ ":null,"
          +:+ Str.quote "documentUrl" +:+ ":" +:+ Str.quote "doc.jsonld" +:+ ","
          +:+ Str.quote "document" +:+ ":{" +:+ Str.quote "@id" +:+ ":"
          +:+ Str.quote "doc.jsonld" +:+ "}}]"] ∧
  fst <$> issued r.1 = ["doc.jsonld"] ∧
  exit_status r = 0.
Proof. by repeat split. Qed.

(** ** More theorems at sample inputs *)

(** [-s -a http] on standard input. *)
Lemma options_entries_witness :
  ∃ options,
    _jsonLdOptions Sample.stack_frames Sample.cwd Sample.path_resolve
      (_jsonLdCommand [Safe; Allow "http"]) "-" = Return options ∧
    options !! "safe" = Some (VBool true) ∧
    options !! "access" = None ∧
    options !! "format" = None.
Proof.
  eexists. split; [reflexivity|].
  destruct (options_entries Sample.stack_frames Sample.cwd
              Sample.path_resolve (_jsonLdCommand [Safe; Allow "http"]) "-"
              _ "format" eq_refl) as (_ & _ & Hsafe & _ & Hallow & Hother).
  split; [exact Hsafe|]. split; [exact (proj2 Hallow)|].
  apply Hother.
  repeat (apply not_elem_of_cons; split; [discriminate|]).
  apply not_elem_of_nil.
Defined.

(** [-a file,http]. *)
Lemma allow_tokens_round_trip_witness :
  get (_jsonLdCommand [Allow "file,http"]) "allow" = VStr "file,http" ∧
  ∃ options,
    _jsonLdOptions Sample.stack_frames Sample.cwd Sample.path_resolve
      (_jsonLdCommand [Allow "file,http"]) "-" = Return options ∧
    ∃ tokens,
      get options "allow" = VArr (VStr <$> tokens) ∧
      String.concat "," tokens = "file,http" ∧
      Forall (fun t => has_char "," t = false) tokens ∧
      tokens ≠ [].
Proof.
  split; [reflexivity|]. eexists. split; [reflexivity|].
  apply (allow_tokens_round_trip Sample.stack_frames Sample.cwd
           Sample.path_resolve (_jsonLdCommand [Allow "file,http"]) "-"
           "file,http");
    [reflexivity|discriminate|reflexivity|reflexivity|reflexivity].
Defined.

(** [toRdf -q -f text/turtle]: the format of [-f] goes to the library. *)
Lemma rdf_format_precedence_witness :
  ∃ base,
    _jsonLdOptions Sample.stack_frames Sample.cwd Sample.path_resolve
      (<["format" := VStr "text/turtle"]>
         (<["nQuads" := VBool true]> (_jsonLdCommand []))) "-" = Return base ∧
    ∃ options,
      get options "format" = VStr "text/turtle" ∧
      get options "allow" = get base "allow" ∧
      toRdf Sample.number_text Sample.stack_frames Sample.write_error Sample.cwd
        Sample.path_resolve Sample.jsonldRequest Sample.jsonld_toRDF None
        (<["format" := VStr "text/turtle"]>
           (<["nQuads" := VBool true]> (_jsonLdCommand []))) =
        (result ← Sample.jsonld_toRDF
                    (documentLoader Sample.cwd Sample.path_resolve
                       Sample.jsonldRequest
                       (<["format" := VStr "text/turtle"]>
                          (<["nQuads" := VBool true]> (_jsonLdCommand [])))
                       options) "-" options;
         _output Sample.number_text Sample.write_error result
           (<["format" := VStr "text/turtle"]>
              (<["nQuads" := VBool true]> (_jsonLdCommand [])))).
Proof.
  eexists. split; [reflexivity|].
  refine (proj1 (rdf_format_precedence Sample.number_text
            Sample.stack_frames Sample.write_error
            Sample.cwd Sample.path_resolve Sample.jsonldRequest
            Sample.jsonld_toRDF Sample.jsonld_canonize None
            (<["format" := VStr "text/turtle"]>
               (<["nQuads" := VBool true]> (_jsonLdCommand []))) _ _)).
  reflexivity.
Defined.

(** N-Quads between a no-break space and a line separator. *)
Lemma output_ignores_outer_space_witness :
  white (Str.bytes [32; 194; 160]%nat) ∧
  white (Str.bytes [226; 128; 168; 10]%nat) ∧
  _output Sample.number_text Sample.write_error
    (VStr (Str.bytes [32; 194; 160]%nat +:+ "_:b0 <urn:p> <urn:o> ."
           +:+ Str.bytes [226; 128; 168; 10]%nat))
    (_jsonLdCommand []) initial =
  _output Sample.number_text Sample.write_error
    (VStr "_:b0 <urn:p> <urn:o> .") (_jsonLdCommand []) initial.
Proof.
  assert (H1 : white (Str.bytes [32; 194; 160]%nat)).
  { apply (white_cons (Str.bytes [32]%nat) (Str.bytes [194; 160]%nat));
      [apply mem_elem_of; reflexivity|].
    apply (white_cons (Str.bytes [194; 160]%nat) "");
      [apply mem_elem_of; reflexivity|constructor]. }
  assert (H2 : white (Str.bytes [226; 128; 168; 10]%nat)).
  { apply (white_cons (Str.bytes [226; 128; 168]%nat) (Str.bytes [10]%nat));
      [apply mem_elem_of; reflexivity|].
    apply (white_cons (Str.bytes [10]%nat) "");
      [apply mem_elem_of; reflexivity|constructor]. }
  split; [exact H1|]. split; [exact H2|].
  exact (proj1 (output_ignores_outer_space Sample.number_text
                  Sample.write_error _ "_:b0 <urn:p> <urn:o> ." _
                  (_jsonLdCommand []) initial H1 H2)).
Defined.

(** The stand-in for the engine prints numbers on one line. *)
Lemma sample_number_text_one_line (x : number) :
  no_control (Sample.number_text x) = true.
Proof.
  assert (H : ∀ d, no_control (NilEmpty.string_of_uint d) = true).
  { induction d; simpl; by rewrite ?IHd. }
  assert (H0 : ∀ d, no_control (NilZero.string_of_uint d) = true).
  { intros d. destruct d; try apply H. reflexivity. }
  destruct x as [|[]|num den]; try reflexivity.
  unfold Sample.number_text, NilZero.string_of_int.
  destruct (Z.to_int _); [apply H0|]. simpl. by rewrite H0.
Qed.

(** [-i 0] on a document with a line feed inside a string. *)
Lemma compact_json_one_line_witness :
  get (_jsonLdCommand [Indent (int 0)]) "indent" = VNum (int 0) ∧
  0 < Z.pos 1 ∧
  ∃ text,
    _output Sample.number_text Sample.write_error
      (VObj [("label", VStr ("two" +:+ Str.LF +:+ "lines"))])
      (_jsonLdCommand [Indent (int 0)]) initial =
      (put_chunks
         (text :: trailing_newline (_jsonLdCommand [Indent (int 0)]))
         initial, Return tt) ∧
    no_control text = true.
Proof.
  split; [reflexivity|]. split; [reflexivity|].
  apply (compact_json_one_line Sample.number_text Sample.write_error _
           (_jsonLdCommand [Indent (int 0)]) (int 0) initial
           sample_number_text_one_line eq_refl);
    [|reflexivity].
  right. right. exists 0, 1%positive. split; reflexivity.
Defined.

(** A result that is [undefined]. *)
Lemma output_refuses_other_values_witness :
  is_object VUndefined = false ∧
  _output Sample.number_text Sample.write_error VUndefined
    (_jsonLdCommand []) initial =
    (initial, Throw (Sample.write_error VUndefined)).
Proof.
  split; [reflexivity|].
  apply output_refuses_other_values; [reflexivity|discriminate].
Defined.

(** The version of [package.json], then an unreadable file. *)
Lemma version_read_once_witness :
  version_toString VUndefined (Return {[ "version" := VStr "2.0.1-0" ]}) =
    (VStr "2.0.1-0", Return (VStr "2.0.1-0")) ∧
  VStr "2.0.1-0" ≠ VUndefined ∧
  version_toString (VStr "2.0.1-0") (Throw (TPrim (PStr "ENOENT"))) =
    (VStr "2.0.1-0", Return (VStr "2.0.1-0")).
Proof.
  split; [reflexivity|]. split; [discriminate|].
  apply (version_read_once (Return {[ "version" := VStr "2.0.1-0" ]}));
    [reflexivity|discriminate].
Defined.

(** [format] on standard input. *)
Lemma format_json_single_request_witness :
  ∃ base,
    _jsonLdOptions Sample.stack_frames Sample.cwd Sample.path_resolve
      (_jsonLdCommand []) "-" = Return base ∧
    issued (format Sample.number_text Sample.stack_frames
              Sample.write_error Sample.cwd Sample.path_resolve
              Sample.jsonldRequest Sample.jsonld_toRDF
              None (_jsonLdCommand []) (World [] true [])).1 =
      [("-", <["allow" := ALLOW_ALL]>
               (_requestOptions Sample.cwd Sample.path_resolve
                  (_jsonLdCommand []) "-"))] ∧
    _primary (format Sample.number_text Sample.stack_frames
                Sample.write_error Sample.cwd Sample.path_resolve
                Sample.jsonldRequest Sample.jsonld_toRDF
                None (_jsonLdCommand []) (World [] true [])).1 = false.
Proof.
  eexists. split; [reflexivity|].
  refine (format_json_single_request Sample.number_text
            Sample.stack_frames Sample.write_error
            Sample.cwd Sample.path_resolve Sample.jsonldRequest
            Sample.jsonld_toRDF None (_jsonLdCommand []) _ "json" [] _ _ _);
    reflexivity.
Defined.

(** [lint -i 8] and [lint]. *)
Lemma lint_reads_few_options_witness :
  ("indent" ∉ ["allow"; "safe"; "base"; "sourceBase"; "insecure"; "type"]) ∧
  (lint Sample.stack_frames Sample.cwd Sample.path_resolve
     Sample.jsonldRequest Sample.jsonld_expand (Some "doc.jsonld")
     (<["indent" := VNum (int 8)]> (_jsonLdCommand [])) =
   lint Sample.stack_frames Sample.cwd Sample.path_resolve
     Sample.jsonldRequest Sample.jsonld_expand (Some "doc.jsonld")
     (_jsonLdCommand [])).
Proof.
  assert (H : "indent" ∉
                ["allow"; "safe"; "base"; "sourceBase"; "insecure"; "type"]).
  { repeat (apply not_elem_of_cons; split; [discriminate|]).
    apply not_elem_of_nil. }
  split; [exact H|]. apply lint_reads_few_options. exact H.
Defined.
